(** * The sandbox runner, its host page, the persistence adapter and the
      generation route

    A shallow embedding of the test-running worker (console capture, program
    loading, deep equality, the case loop, the message handler), of the page
    that drives it (the case drafts, their ids, the requests and what is
    shown of the answers), of the local-storage adapter and of the route
    that asks a model for code.

    JavaScript values are first-order trees: arrays may have holes, and an
    object is its own enumerable properties together with where it inherits
    from.  The program under test is known by what it does: a run of it is a
    tree of console calls, each answered by the capturing console (the call
    returns, or throws when an argument cannot be rendered), ending in a
    result and a state.  The built-ins the sources call ([JSON.parse],
    [JSON.stringify], [String], [fetch]) are parameters; each may throw
    where the language lets it throw.

    What is left out: getters, proxies and symbols; code of the program run
    by [JSON.stringify] or [String] ([toJSON], [toString]) that prints or
    changes the program's state; a program that changes the built-in
    prototypes; calls that do not return; the engine's stack limit. *)

From Stdlib Require Import List String Ascii Bool Arith ZArith Lia Permutation.
From Stdlib Require Import Floats.SpecFloat DecimalString.
From Stdlib Require DecimalPos DecimalZ DecimalNat.
Import ListNotations.
Local Open Scope string_scope.
Local Open Scope list_scope.

Set Implicit Arguments.

(** ** Values *)

(** Numbers are IEEE 754 binary64 values in the representation of the standard
    library's specification of floats: one NaN, two zeros, two infinities, and
    the finite non-zero numbers by sign, mantissa and exponent (in canonical
    form, so that two numbers are the same value when they are the same term). *)
Definition number := spec_float.

(** The binary64 value of an integer literal. *)
Definition num (z : Z) : number := binary_normalize 53 1024 z 0 false.

(** A function is opaque and known by its identity: a function the program
    made, or a built-in one. *)
Inductive function : Type :=
| Closure (id : nat)
| Builtin (name : string).

(** Where an object inherits from: [Object.prototype] (the objects that
    object literals, [JSON.parse] and structured cloning build), nothing
    ([Object.create(null)]), or the object is [Object.prototype] itself. *)
Inductive kind : Type := Plain | Bare | ObjectPrototype.

Unset Elimination Schemes.

(** A value as the runner sees it.  An array is the list of its positions,
    [None] for a hole; an object is the list of its own enumerable
    properties in the order [Object.keys] reports them. *)
Inductive value : Type :=
| VUndefined
| VNull
| VBool (b : bool)
| VNum (n : number)
| VStr (s : string)
| VFun (f : function)
| VArr (items : list (option value))
| VObj (k : kind) (props : list (string * value)).

Set Elimination Schemes.

(** [P] holds of what a position of an array holds, if anything. *)
Definition at_item (P : value -> Prop) (item : option value) : Prop :=
  match item with Some v => P v | None => True end.

Section ValueInduction.
Variable P : value -> Prop.
Hypothesis Hundef : P VUndefined.
Hypothesis Hnull : P VNull.
Hypothesis Hbool : forall b, P (VBool b).
Hypothesis Hnum : forall n, P (VNum n).
Hypothesis Hstr : forall s, P (VStr s).
Hypothesis Hfun : forall f, P (VFun f).
Hypothesis Harr : forall xs, Forall (at_item P) xs -> P (VArr xs).
Hypothesis Hobj : forall k ps, Forall (fun kv => P (snd kv)) ps -> P (VObj k ps).

Fixpoint value_ind (v : value) : P v :=
  match v with
  | VUndefined => Hundef
  | VNull => Hnull
  | VBool b => Hbool b
  | VNum n => Hnum n
  | VStr s => Hstr s
  | VFun f => Hfun f
  | VArr xs =>
      Harr ((fix items_ind (l : list (option value)) : Forall (at_item P) l :=
               match l with
               | [] => Forall_nil _
               | x :: l' =>
                   Forall_cons (P := at_item P) x
                     (match x return at_item P x with
                      | Some v => value_ind v
                      | None => I
                      end)
                     (items_ind l')
               end) xs)
  | VObj k ps =>
      Hobj k ((fix props_ind (l : list (string * value))
                 : Forall (fun kv => P (snd kv)) l :=
                 match l with
                 | [] => Forall_nil _
                 | kv :: l' =>
                     Forall_cons (P := fun kv => P (snd kv)) kv
                       (value_ind (snd kv)) (props_ind l')
                 end) ps)
  end.
End ValueInduction.

(** An array without holes. *)
Definition dense (xs : list value) : value := VArr (map Some xs).

(** *** Primitive operations of the language *)

Inductive jstype := TUndefined | TObject | TBoolean | TNumber | TString | TFunction.

(** [typeof v]; note [typeof null === "object"]. *)
Definition typeof (v : value) : jstype :=
  match v with
  | VUndefined => TUndefined
  | VNull => TObject
  | VBool _ => TBoolean
  | VNum _ => TNumber
  | VStr _ => TString
  | VFun _ => TFunction
  | VArr _ | VObj _ _ => TObject
  end.

Definition jstype_eqb (s t : jstype) : bool :=
  match s, t with
  | TUndefined, TUndefined | TObject, TObject | TBoolean, TBoolean
  | TNumber, TNumber | TString, TString | TFunction, TFunction => true
  | _, _ => false
  end.

(** [!v]: the falsy values are [undefined], [null], [false], [0], [-0], [NaN]
    and the empty string. *)
Definition falsy (v : value) : bool :=
  match v with
  | VUndefined | VNull => true
  | VBool b => negb b
  | VNum (S754_zero _) | VNum S754_nan => true
  | VStr EmptyString => true
  | _ => false
  end.

Definition Array_isArray (v : value) : bool :=
  match v with VArr _ => true | _ => false end.

(** SameValue on numbers: NaN is NaN, and the two zeros differ. *)
Definition same_number (x y : number) : bool :=
  match x, y with
  | S754_zero s, S754_zero t => Bool.eqb s t
  | S754_infinity s, S754_infinity t => Bool.eqb s t
  | S754_nan, S754_nan => true
  | S754_finite s m e, S754_finite t n f =>
      Bool.eqb s t && Pos.eqb m n && Z.eqb e f
  | _, _ => false
  end.

Definition same_function (f g : function) : bool :=
  match f, g with
  | Closure i, Closure j => Nat.eqb i j
  | Builtin s, Builtin t => String.eqb s t
  | _, _ => false
  end.

(** [Object.is(a, b)].  Primitives are compared by value and functions by
    identity.  Two arguments of object type stand for two allocations (in the
    runner, one comes from the program under test and the other from the
    request message), so they are never the same reference; a shared
    reference would be answered [true] at once, which is also what the
    structural comparison returns on it (see [deepEqual_refl]). *)
Definition Object_is (a b : value) : bool :=
  match a, b with
  | VUndefined, VUndefined => true
  | VNull, VNull => true
  | VBool x, VBool y => Bool.eqb x y
  | VNum x, VNum y => same_number x y
  | VStr s, VStr t => String.eqb s t
  | VFun f, VFun g => same_function f g
  | _, _ => false
  end.

(** [Object.keys(o)] *)
Definition keys (ps : list (string * value)) : list string := map fst ps.

(** The own enumerable property of a name, if there is one. *)
Fixpoint own (ps : list (string * value)) (key : string) : option value :=
  match ps with
  | [] => None
  | (k, v) :: ps' => if String.eqb k key then Some v else own ps' key
  end.

(** The methods of [Object.prototype], none of them enumerable. *)
Definition Object_prototype_methods : list string :=
  ["__defineGetter__"; "__defineSetter__"; "__lookupGetter__";
   "__lookupSetter__"; "hasOwnProperty"; "isPrototypeOf";
   "propertyIsEnumerable"; "toLocaleString"; "toString"; "valueOf"].

(** What a read finds on [Object.prototype] under a name other than
    [__proto__]. *)
Definition Object_prototype_member (key : string) : value :=
  if String.eqb key "constructor" then VFun (Builtin "Object")
  else if existsb (String.eqb key) Object_prototype_methods
       then VFun (Builtin ("Object.prototype." ++ key))
       else VUndefined.

(** What a read finds past the own enumerable properties of an object.  The
    accessor [__proto__] of [Object.prototype] answers with the prototype of
    the object that is read. *)
Definition inherited (k : kind) (key : string) : value :=
  match k with
  | Bare => VUndefined
  | Plain =>
      if String.eqb key "__proto__" then VObj ObjectPrototype []
      else Object_prototype_member key
  | ObjectPrototype =>
      if String.eqb key "__proto__" then VNull
      else Object_prototype_member key
  end.

(** [o[key]] on an object: the own property, and past it the chain of
    prototypes. *)
Definition get (k : kind) (ps : list (string * value)) (key : string) : value :=
  match own ps key with
  | Some v => v
  | None => inherited k key
  end.

(** What a read of a position of an array gives: [undefined] at a hole. *)
Definition item_value (x : option value) : value :=
  match x with Some v => v | None => VUndefined end.

(** [b[index]] on an array: [undefined] at a hole and past the end. *)
Definition at_index (xs : list (option value)) (index : nat) : value :=
  match nth_error xs index with
  | Some x => item_value x
  | None => VUndefined
  end.

(** ** Deep equality *)

Section Every.
Variables A B : Type.
Variable present : A -> option B.
Variable callback : B -> nat -> bool.

(** [xs.every(callback)], the callback taking the element and its index; a
    position that holds nothing (a hole) is passed over.  The callbacks of
    this program have no effect, so the conjunction is the loop's result
    whether or not it stops at the first failure. *)
Fixpoint every (xs : list A) (index : nat) {struct xs} : bool :=
  match xs with
  | [] => true
  | x :: xs' =>
      match present x with
      | None => every xs' (S index)
      | Some y => callback y index && every xs' (S index)
      end
  end.
End Every.

(** The positions of an array, and those of the array [Object.keys] gives
    (which has no hole). *)
Definition position (x : option value) : option value := x.
Definition property (kv : string * value) : option (string * value) := Some kv.

(** [deepEqual(a, b)], clause by clause.  The property of [a] under one of
    its own keys is the value listed with the key. *)
Fixpoint deepEqual (a b : value) {struct a} : bool :=
  if Object_is a b then true
  else if negb (jstype_eqb (typeof a) TObject)
          || negb (jstype_eqb (typeof b) TObject)
          || falsy a || falsy b then false
  else
    match a, b with
    | VArr xs, VArr ys =>
        if negb (Nat.eqb (List.length xs) (List.length ys)) then false
        else every position (fun x index => deepEqual x (at_index ys index)) xs 0
    | VArr _, _ | _, VArr _ => false
    | VObj ka ps, VObj kb qs =>
        if negb (Nat.eqb (List.length (keys ps)) (List.length (keys qs))) then false
        else every property
                   (fun kv _ => deepEqual (snd kv) (get kb qs (fst kv))) ps 0
    | _, _ => false
    end.

(** *** Deep equality, operationally

    The same function as a run of the engine: every call spends one unit of
    fuel, and an operation applied outside the type it is written for (the
    array methods on a non-array, [Object.keys] and the property reads on
    anything but an object) raises [TypeError].  The functional [deepEqual]
    above is what the run returns. *)
Inductive run (A : Type) : Type :=
| Done (a : A)
| TypeError
| OutOfFuel.
Arguments TypeError {A}.
Arguments OutOfFuel {A}.

Definition run_bind {A B} (r : run A) (k : A -> run B) : run B :=
  match r with
  | Done a => k a
  | TypeError => TypeError
  | OutOfFuel => OutOfFuel
  end.

Notation "x <- r ;; k" := (run_bind r (fun x => k))
  (at level 61, r at next level, right associativity).

Definition as_array (v : value) : run (list (option value)) :=
  match v with VArr xs => Done xs | _ => TypeError end.

Definition as_object (v : value) : run (kind * list (string * value)) :=
  match v with VObj k ps => Done (k, ps) | _ => TypeError end.

(** [xs.every(callback)]: passes over the holes and stops at the first
    element the callback rejects. *)
Fixpoint every_run {A B} (present : A -> option B)
    (callback : B -> nat -> run bool) (xs : list A) (index : nat) : run bool :=
  match xs with
  | [] => Done true
  | x :: xs' =>
      match present x with
      | None => every_run present callback xs' (S index)
      | Some y =>
          ok <- callback y index ;;
          if ok then every_run present callback xs' (S index) else Done false
      end
  end.

Fixpoint deepEqual_run (fuel : nat) (a b : value) {struct fuel} : run bool :=
  match fuel with
  | O => OutOfFuel
  | S fuel' =>
      if Object_is a b then Done true
      else if negb (jstype_eqb (typeof a) TObject)
              || negb (jstype_eqb (typeof b) TObject)
              || falsy a || falsy b then Done false
      else if Array_isArray a && Array_isArray b then
        xs <- as_array a ;;
        ys <- as_array b ;;
        if negb (Nat.eqb (List.length xs) (List.length ys)) then Done false
        else every_run position
                       (fun x index => deepEqual_run fuel' x (at_index ys index))
                       xs 0
      else if Array_isArray a || Array_isArray b then Done false
      else
        p <- as_object a ;;
        q <- as_object b ;;
        if negb (Nat.eqb (List.length (keys (snd p))) (List.length (keys (snd q))))
        then Done false
        else every_run property
                       (fun kv _ => deepEqual_run fuel' (snd kv)
                                                  (get (fst q) (snd q) (fst kv)))
                       (snd p) 0
  end.

(** Nesting depth of a value: the measure the recursion descends on. *)
Fixpoint height (v : value) : nat :=
  match v with
  | VArr xs =>
      S (fold_right (fun x m => match x with
                                | Some y => Nat.max (height y) m
                                | None => m
                                end) 0 xs)
  | VObj _ ps => S (fold_right (fun kv m => Nat.max (height (snd kv)) m) 0 ps)
  | _ => 0
  end.

(** *** JSON-derived values *)

Fixpoint distinct (ks : list string) : bool :=
  match ks with
  | [] => true
  | k :: ks' => negb (existsb (String.eqb k) ks') && distinct ks'
  end.

(** Values built from null, booleans, numbers, strings, arrays and plain
    objects only (what [JSON.parse] produces): no hole, no [undefined], no
    function.  An object has no two properties of one name. *)
Fixpoint json_derived (v : value) : bool :=
  match v with
  | VUndefined | VFun _ => false
  | VNull | VBool _ | VNum _ | VStr _ => true
  | VArr xs =>
      forallb (fun x => match x with Some y => json_derived y | None => false end) xs
  | VObj Plain ps =>
      distinct (keys ps) && forallb (fun kv => json_derived (snd kv)) ps
  | VObj _ _ => false
  end.

(** The invariant of the representation alone: no object has two properties
    of one name. *)
Fixpoint well_formed (v : value) : bool :=
  match v with
  | VArr xs =>
      forallb (fun x => match x with Some y => well_formed y | None => true end) xs
  | VObj _ ps => distinct (keys ps) && forallb (fun kv => well_formed (snd kv)) ps
  | _ => true
  end.

(** No object of the value has an own property named [__proto__]. *)
Fixpoint proto_free (v : value) : bool :=
  match v with
  | VArr xs =>
      forallb (fun x => match x with Some y => proto_free y | None => true end) xs
  | VObj _ ps =>
      negb (existsb (String.eqb "__proto__") (keys ps))
      && forallb (fun kv => proto_free (snd kv)) ps
  | _ => true
  end.

(** A value that is not an array or an object. *)
Definition primitive (v : value) : bool :=
  match v with VArr _ | VObj _ _ => false | _ => true end.

(** An object none of whose properties holds [undefined]. *)
Definition all_defined (ps : list (string * value)) : Prop :=
  forall k v, In (k, v) ps -> v <> VUndefined.

(** ** Strings *)

(** A character is a UTF-16 code unit of the Latin-1 range.  The white space
    and line terminators [trim] strips in that range: TAB, LF, VT, FF, CR,
    SP and NBSP. *)
Definition is_whitespace (c : ascii) : bool :=
  let n := nat_of_ascii c in
  (Nat.leb 9 n && Nat.leb n 13) || Nat.eqb n 32 || Nat.eqb n 160.

Fixpoint trimStart (s : string) : string :=
  match s with
  | EmptyString => EmptyString
  | String c s' => if is_whitespace c then trimStart s' else s
  end.

Fixpoint trimEnd (s : string) : string :=
  match s with
  | EmptyString => EmptyString
  | String c s' =>
      match trimEnd s' with
      | EmptyString => if is_whitespace c then EmptyString else String c EmptyString
      | t => String c t
      end
  end.

Definition trim (s : string) : string := trimEnd (trimStart s).

Definition is_empty (s : string) : bool :=
  match s with EmptyString => true | _ => false end.

Fixpoint whitespace_only (s : string) : bool :=
  match s with
  | EmptyString => true
  | String c s' => is_whitespace c && whitespace_only s'
  end.

(** The first and the last character of a text. *)
Definition first_char (s : string) : option ascii :=
  match s with EmptyString => None | String c _ => Some c end.

Fixpoint last_char (s : string) : option ascii :=
  match s with
  | EmptyString => None
  | String c EmptyString => Some c
  | String _ s' => last_char s'
  end.

(** A text that neither starts nor ends with white space. *)
Definition tight (s : string) : bool :=
  match first_char s, last_char s with
  | Some c, Some d => negb (is_whitespace c) && negb (is_whitespace d)
  | _, _ => true
  end.

(** [xs.join(sep)] on an array of strings; an [undefined] element is rendered
    as the empty string. *)
Definition join_item (x : option string) : string :=
  match x with Some s => s | None => EmptyString end.

Fixpoint join (sep : string) (xs : list (option string)) : string :=
  match xs with
  | [] => EmptyString
  | [x] => join_item x
  | x :: xs' => join_item x ++ sep ++ join sep xs'
  end.

(** ** The sandbox runner *)

(** What a [catch] clause receives: an instance of [Error] with its message,
    or any other value. *)
Inductive thrown : Type :=
| ThrownError (message : string)
| ThrownValue (v : value).

(** How an evaluation ends: with its value, or by a throw. *)
Inductive completion (A : Type) : Type :=
| Returns (a : A)
| Throws (e : thrown).
Arguments Throws {A} e.

Definition bind {A B} (c : completion A) (k : A -> completion B) : completion B :=
  match c with
  | Returns a => k a
  | Throws e => Throws e
  end.

Notation "x <-- c ;; k" := (bind c (fun x => k))
  (at level 61, c at next level, right associativity).

(** [try { body } catch (error) { handler }] *)
Definition catch {A} (body : completion A) (handler : thrown -> completion A)
  : completion A :=
  match body with
  | Returns a => Returns a
  | Throws error => handler error
  end.

(** [xs.map(f)] with a callback that may throw: the first throw ends the
    loop. *)
Fixpoint map_completion {A B} (f : A -> completion B) (xs : list A)
  : completion (list B) :=
  match xs with
  | [] => Returns []
  | x :: xs' =>
      y <-- f x ;;
      ys <-- map_completion f xs' ;;
      Returns (y :: ys)
  end.

(** How the evaluation of the wrapped program text ends: it reaches the
    appended [return] statement with some binding of [solution] and some
    content of [module.exports], or the text returns by itself, or it throws
    (a syntax error is thrown before anything runs). *)
Inductive body_completion : Type :=
| BodyEnd (solution exports : value)
| BodyReturn (v : value)
| BodyThrow (e : thrown).

Inductive verb := console_log | console_info | console_warn | console_error.

Record console_call : Type := { call_verb : verb; call_args : list value }.

(** A case of the request, [{ name, args, expected }] (the fields carry a
    prefix here: [name] and [expected] are fields of a result too). *)
Record Case : Type := {
  case_name : string;
  case_args : list (option value);
  case_expected : value
}.

(** [...args]: the elements of an array as arguments, [undefined] for a
    hole. *)
Definition spread (args : list (option value)) : list value :=
  map item_value args.

(** An optional field of a result: absent, or present with a string or with
    [undefined] ([serializeValue] returns [undefined] when [JSON.stringify]
    does). *)
Inductive field : Type :=
| Absent
| Present (text : option string).

Record TestResult : Type := {
  name : string;
  pass : bool;
  error : option string;
  expected : field;
  actual : field
}.

Inductive WorkerResponse : Type :=
| Success (results : list TestResult) (logs : list string)
| Failure (error : string) (logs : list string).

(** [cases] is [None] when the field is [null] or [undefined]. *)
Record WorkerRequest : Type := {
  code : string;
  cases : option (list Case)
}.

Definition response_logs (r : WorkerResponse) : list string :=
  match r with Success _ l | Failure _ l => l end.

Definition response_ok (r : WorkerResponse) : bool :=
  match r with Success _ _ => true | Failure _ _ => false end.

(** [typeof v === "function"] *)
Definition is_callable (v : value) : bool := jstype_eqb (typeof v) TFunction.

(** The load fails: the text throws, or what it resolves to is not callable. *)
Definition load_failed (c : completion value) : bool :=
  match c with
  | Throws _ => true
  | Returns v => negb (is_callable v)
  end.

(** A response whose error message, if it has one, is not the empty string. *)
Definition nonempty_error (r : WorkerResponse) : bool :=
  match r with
  | Failure message _ => negb (is_empty message)
  | Success _ _ => true
  end.

(** What [JSON.stringify(v)] yields: a text, [undefined], or an exception
    (which the two callers drop). *)
Inductive stringified : Type :=
| SText (s : string)
| SUndefined
| SThrows.

Section Runner.

(** The state of the program under test (its globals and closures). *)
Variable World : Type.

(** What running a piece of the program does: it ends with a result and a
    state, or it calls a console verb and goes on from what the call does:
    the call returns ([None]) or throws. *)
Inductive behaviour (R : Type) : Type :=
| Finished (r : R) (w : World)
| Prints (c : console_call) (resume : option thrown -> behaviour R).

(** The engine: [run_body text w] is the call of
    [new Function("module", "exports", "console", text)] on the shims, and
    [apply f args w] the call of the function [f] on [args].  Both end: a
    program that does not terminate has no response at all. *)
Variable run_body : string -> World -> behaviour body_completion.
Variable apply : function -> list value -> World -> behaviour (completion value).

Variable JSON_stringify : value -> stringified.
Variable String_of : value -> completion string.

(** *** captureConsole *)

Definition serialize (v : value) : completion (option string) :=
  match v with
  | VStr s => Returns (Some s)
  | _ =>
      match JSON_stringify v with
      | SText s => Returns (Some s)
      | SUndefined => Returns None
      | SThrows => s <-- String_of v ;; Returns (Some s)
      end
  end.

(** [args.map(serialize).join(" ")] *)
Definition line_of (args : list value) : completion string :=
  rendered <-- map_completion serialize args ;;
  Returns (join " " rendered).

(** [logs.push(args.map(serialize).join(" "))] *)
Definition logger (args : list value) (logs : list string)
  : completion (list string) :=
  line <-- line_of args ;;
  Returns (logs ++ [line]).

Definition console := verb -> list value -> list string -> completion (list string).

(** The fresh buffer and the console whose four verbs are the one logger. *)
Definition captureConsole : list string * console :=
  ([], fun _ => logger).

(** The runner's state: the log buffer and the program's own state. *)
Record state : Type := { logs : list string; world : World }.

(** Running a piece of the program with the capturing console: each console
    call is made on the buffer, and the program goes on from its outcome. *)
Fixpoint perform {R} (sandboxConsole : console) (b : behaviour R)
    (buffer : list string) : R * state :=
  match b with
  | Finished r w => (r, {| logs := buffer; world := w |})
  | Prints c resume =>
      match sandboxConsole (call_verb c) (call_args c) buffer with
      | Returns buffer' => perform sandboxConsole (resume None) buffer'
      | Throws e => perform sandboxConsole (resume (Some e)) buffer
      end
  end.

(** *** runUserCode *)

(** The last line of the wrapper:
    [return typeof solution !== "undefined" ? solution : module.exports;] *)
Definition resolved (c : body_completion) : completion value :=
  match c with
  | BodyEnd solution exports =>
      Returns (if negb (jstype_eqb (typeof solution) TUndefined)
               then solution else exports)
  | BodyReturn v => Returns v
  | BodyThrow e => Throws e
  end.

Definition runUserCode (code : string) (sandboxConsole : console) (st : state)
  : completion value * state :=
  let (c, st') := perform sandboxConsole (run_body code (world st)) (logs st) in
  (resolved c, st').

(** *** serializeValue *)

Definition serializeValue (v : value) : completion (option string) :=
  match v with
  | VStr s => Returns (Some s)
  | _ =>
      match JSON_stringify v with
      | SText s => Returns (Some s)
      | SUndefined => Returns None
      | SThrows => s <-- String_of v ;; Returns (Some s)
      end
  end.

(** [error instanceof Error ? error.message : String(error)] *)
Definition error_text (e : thrown) : completion string :=
  match e with
  | ThrownError message => Returns message
  | ThrownValue v => String_of v
  end.

(** *** runTests *)

(** The body of the [try] of one turn of the loop, from how the call ended:
    the result it pushes, unless something in it throws. *)
Definition attempt (testCase : Case) (called : completion value)
  : completion TestResult :=
  actual <-- called ;;
  if deepEqual actual (case_expected testCase) then
    Returns {| name := case_name testCase; pass := true;
               error := None; expected := Absent; actual := Absent |}
  else
    expectedText <-- serializeValue (case_expected testCase) ;;
    actualText <-- serializeValue actual ;;
    Returns {| name := case_name testCase; pass := false;
               error := Some "Output mismatch.";
               expected := Present expectedText;
               actual := Present actualText |}.

(** The [catch] of one turn of the loop. *)
Definition rescue (testCase : Case) (error : thrown) : completion TestResult :=
  message <-- error_text error ;;
  Returns {| name := case_name testCase; pass := false;
             error := Some message; expected := Absent; actual := Absent |}.

(** One turn of the loop: the result pushed for [testCase], or what the turn
    throws.  The console is the one the program was loaded with, which its
    functions close over. *)
Definition run_case (f : function) (sandboxConsole : console) (testCase : Case)
    (st : state) : completion TestResult * state :=
  let (called, st') :=
    perform sandboxConsole (apply f (spread (case_args testCase)) (world st))
            (logs st) in
  (catch (attempt testCase called) (rescue testCase), st').

(** The [for ... of] loop, with [results] the array built so far; a turn
    that throws ends it. *)
Fixpoint run_cases (f : function) (sandboxConsole : console) (cases : list Case)
    (results : list TestResult) (st : state)
  : completion (list TestResult) * state :=
  match cases with
  | [] => (Returns results, st)
  | testCase :: rest =>
      match run_case f sandboxConsole testCase st with
      | (Returns r, st') => run_cases f sandboxConsole rest (results ++ [r]) st'
      | (Throws e, st') => (Throws e, st')
      end
  end.

Definition runTests (solution : value) (sandboxConsole : console)
    (cases : list Case) (st : state) : completion (list TestResult) * state :=
  match solution with
  | VFun f => run_cases f sandboxConsole cases [] st
  | _ => (Throws (ThrownError "solution must be a function."), st)
  end.

(** *** self.onmessage *)

(** The [try] block of the handler up to the results. *)
Definition load_and_run (data : WorkerRequest) (sandboxConsole : console)
    (st : state) : completion (list TestResult) * state :=
  let (loaded, st1) := runUserCode (code data) sandboxConsole st in
  match loaded with
  | Returns solution =>
      runTests solution sandboxConsole
               (match cases data with Some cs => cs | None => [] end) st1
  | Throws e => (Throws e, st1)
  end.

(** The handler, from the request and the state of the worker to the message
    it posts, if it posts one, and the state it leaves.  It posts none when
    its [catch] clause throws. *)
Definition onmessage (data : WorkerRequest) (w : World)
  : option WorkerResponse * World :=
  let (logs0, sandboxConsole) := captureConsole in
  let (ran, st) := load_and_run data sandboxConsole {| logs := logs0; world := w |} in
  match ran with
  | Returns results => (Some (Success results (logs st)), world st)
  | Throws error =>
      match error_text error with
      | Returns message => (Some (Failure message (logs st)), world st)
      | Throws _ => (None, world st)
      end
  end.

(** *** What the program printed

    The console calls of a run, in the order they happen, each answered as
    the capturing console answers it. *)
Definition answer_of (c : console_call) : option thrown :=
  match line_of (call_args c) with
  | Returns _ => None
  | Throws e => Some e
  end.

Fixpoint calls_of {R} (b : behaviour R) : list console_call :=
  match b with
  | Finished _ _ => []
  | Prints c resume => c :: calls_of (resume (answer_of c))
  end.

(** The calls of the loop: those of each case in turn, up to the turn that
    throws. *)
Fixpoint calls_of_cases (f : function) (cases : list Case) (st : state)
  : list console_call :=
  match cases with
  | [] => []
  | testCase :: rest =>
      calls_of (apply f (spread (case_args testCase)) (world st))
      ++ match run_case f (snd captureConsole) testCase st with
         | (Returns _, st') => calls_of_cases f rest st'
         | (Throws _, _) => []
         end
  end.

(** The calls of a whole request: those of the load, then those of the
    loop. *)
Definition calls_of_request (data : WorkerRequest) (w : World)
  : list console_call :=
  let b := run_body (code data) w in
  let (loaded, st1) := perform (snd captureConsole) b [] in
  calls_of b ++
  match resolved loaded with
  | Returns (VFun f) =>
      calls_of_cases f (match cases data with Some cs => cs | None => [] end) st1
  | _ => []
  end.

(** The lines console calls leave in the buffer: one for a call whose
    arguments are all rendered, none for one that throws. *)
Definition lines_of (calls : list console_call) : list string :=
  flat_map (fun c => match line_of (call_args c) with
                     | Returns line => [line]
                     | Throws _ => []
                     end) calls.

End Runner.

Arguments Finished {World R} r w.
Arguments Prints {World R} c resume.

(** ** The host controller *)

(** A case as typed in the page, [{ id, args, expected }], all three texts. *)
Record TestCaseDraft : Type := {
  id : string;
  args : string;
  expected_text : string
}.

Section Host.

(** [JSON.parse]: [None] when it throws. *)
Variable JSON_parse : string -> option value.

Definition parseValue (raw : string) : value :=
  let trimmed := trim raw in
  if is_empty trimmed then VUndefined
  else
    match JSON_parse trimmed with
    | Some v => v
    | None => VStr trimmed
    end.

(** [value !== undefined] *)
Definition is_defined (v : value) : bool :=
  match v with VUndefined => false | _ => true end.

(** The argument vector of a draft:
    [Array.isArray(argsValue) ? argsValue
      : [argsValue].filter((value) => value !== undefined)] *)
Definition argument_vector (argsValue : value) : list (option value) :=
  match argsValue with
  | VArr xs => xs
  | _ => map Some (filter is_defined [argsValue])
  end.

Definition decimal (n : nat) : string :=
  NilEmpty.string_of_uint (Nat.to_uint n).

(** One turn of the loop of [handleRun]. *)
Definition parsed_case (index : nat) (draft : TestCaseDraft) : Case :=
  let argsValue := parseValue (args draft) in
  let expectedValue := parseValue (expected_text draft) in
  let labelBase :=
    if is_empty (trim (args draft)) then EmptyString
    else ("(" ++ args draft ++ ")")%string in
  {| case_name := trim ("Case " ++ decimal (index + 1) ++ " " ++ labelBase)%string;
     case_args := argument_vector argsValue;
     case_expected := expectedValue |}.

Fixpoint parsed_cases (index : nat) (drafts : list TestCaseDraft) : list Case :=
  match drafts with
  | [] => []
  | draft :: rest => parsed_case index draft :: parsed_cases (S index) rest
  end.

(** The message [handleRun] posts to the worker; none while there is no
    worker ([if (!workerRef.current) return;]). *)
Definition handleRun (worker : bool) (code : string) (drafts : list TestCaseDraft)
  : option WorkerRequest :=
  if negb worker then None
  else Some {| code := code; cases := Some (parsed_cases 0 drafts) |}.

(** The rule for a text as the specification words it, the text parsed as
    it stands and trimmed only when it is kept as a string; for comparison
    with [parseValue]. *)
Definition parse_as_worded (raw : string) : value :=
  match JSON_parse raw with
  | Some v => v
  | None => if is_empty (trim raw) then VUndefined else VStr (trim raw)
  end.

End Host.

(** ** A small engine for the examples

    A handful of program texts with the behaviour the language gives them,
    and stand-ins for [JSON.stringify], [String] and [JSON.parse] that are
    exact on the values the examples use (integral numbers, booleans, null,
    strings without escapes, arrays and objects of these; a number that is
    not integral is shown as mantissa*2^exponent, which is not the decimal
    text of the language; the one [toJSON] method of the examples throws).
    The state of the program is the number of calls of the entry point so
    far. *)
Module Sample.

Local Open Scope string_scope.

Definition integral (n : number) : option Z :=
  match n with
  | S754_zero _ => Some 0%Z
  | S754_finite s m e =>
      let z := if s then Z.neg m else Z.pos m in
      if (0 <=? e)%Z then Some (z * 2 ^ e)%Z
      else if (Z.pos m mod 2 ^ (- e) =? 0)%Z then Some (z / 2 ^ (- e))%Z
      else None
  | _ => None
  end.

Definition number_text (n : number) : string :=
  match integral n with
  | Some z => NilEmpty.string_of_int (Z.to_int z)
  | None =>
      match n with
      | S754_nan => "NaN"
      | S754_infinity false => "Infinity"
      | S754_infinity true => "-Infinity"
      | S754_finite s m e =>
          (if s then "-" else EmptyString)
          ++ NilEmpty.string_of_int (Z.to_int (Z.pos m))
          ++ "*2^" ++ NilEmpty.string_of_int (Z.to_int e)
      | S754_zero _ => "0"
      end
  end.

Definition quote : string := String (ascii_of_nat 34) EmptyString.

Fixpoint json_text (v : value) : option string :=
  match v with
  | VUndefined | VFun _ => None
  | VNull => Some "null"
  | VBool true => Some "true"
  | VBool false => Some "false"
  | VNum n => Some (match integral n with
                    | Some _ => number_text n
                    | None => match n with
                              | S754_finite _ _ _ => number_text n
                              | _ => "null"
                              end
                    end)
  | VStr s => Some (quote ++ s ++ quote)
  | VArr xs =>
      Some ("[" ++
        (fix items (l : list (option value)) : string :=
           let text x := match x with
                         | Some y => match json_text y with
                                     | Some t => t
                                     | None => "null"
                                     end
                         | None => "null"
                         end in
           match l with
           | [] => EmptyString
           | [x] => text x
           | x :: l' => text x ++ "," ++ items l'
           end) xs ++ "]")
  | VObj _ ps =>
      Some ("{" ++
        (fix members (l : list (string * value)) (first : bool) : string :=
           match l with
           | [] => EmptyString
           | (k, x) :: l' =>
               match json_text x with
               | Some t =>
                   (if first then EmptyString else ",")
                   ++ quote ++ k ++ quote ++ ":" ++ t ++ members l' false
               | None => members l' first
               end
           end) ps true ++ "}")
  end.

(** An object with a method [toJSON]. *)
Definition has_toJSON (v : value) : bool :=
  match v with
  | VObj _ ps => match own ps "toJSON" with Some (VFun _) => true | _ => false end
  | _ => false
  end.

Definition JSON_stringify (v : value) : stringified :=
  if has_toJSON v then SThrows
  else match json_text v with Some t => SText t | None => SUndefined end.

Definition cannot_convert : thrown :=
  ThrownError "Cannot convert object to primitive value".

(** [String(v)]: an object without a usable [toString] cannot be converted
    (a [toString] or [valueOf] of the object's own is taken to be
    unusable). *)
Fixpoint String_of (v : value) : completion string :=
  match v with
  | VUndefined => Returns "undefined"
  | VNull => Returns "null"
  | VBool true => Returns "true"
  | VBool false => Returns "false"
  | VNum n => Returns (number_text n)
  | VStr s => Returns s
  | VFun (Closure _) => Returns "function () { [code] }"
  | VFun (Builtin name) => Returns ("function " ++ name ++ "() { [native code] }")
  | VArr xs =>
      (fix items (l : list (option value)) : completion string :=
         let text x := match x with
                       | Some VUndefined | Some VNull | None => Returns EmptyString
                       | Some y => String_of y
                       end in
         match l with
         | [] => Returns EmptyString
         | [x] => text x
         | x :: l' =>
             t <-- text x ;; rest <-- items l' ;; Returns (t ++ "," ++ rest)
         end) xs
  | VObj Bare _ => Throws cannot_convert
  | VObj _ ps =>
      match own ps "toString", own ps "valueOf" with
      | None, None => Returns "[object Object]"
      | _, _ => Throws cannot_convert
      end
  end.

(** The JSON texts the examples parse; anything else is rejected. *)
Definition JSON_parse (text : string) : option value :=
  if String.eqb text "9" then Some (VNum (num 9))
  else if String.eqb text "3" then Some (VNum (num 3))
  else if String.eqb text "null" then Some VNull
  else if String.eqb text "[1, 2]" then Some (dense [VNum (num 1); VNum (num 2)])
  else if String.eqb text "[]" then Some (VArr [])
  else None.

Definition sqrt_text := "function solution(n) { return Math.sqrt(n); }".
Definition hi_text := "function solution() { console.log('hi'); return 1; }".
Definition invalid_text := "const x = ;".
Definition silent_throw_text := "console.warn('loading', 1); throw new Error('');".
Definition picky_text :=
  "function solution(n) { if (n === 2) throw new Error('boom'); return n; }".
Definition sparse_text := "function solution() { return { x: undefined }; }".
Definition no_entry_text := "console.info('no entry point'); const answer = 42;".
Definition exports_text := "module.exports = function (n) { return n; };".
Definition void_text := "function solution() {}".
Definition ready_text := "console.log('ready', [1, 2]); function solution() { return 1; }".
Definition counter_text :=
  "let n = 0; function solution() { n += 1; if (n === 2) throw 'second'; return n; }".
Definition bare_throw_text :=
  "function solution(n) { if (n === 2) throw Object.create(null); return n; }".
Definition bare_load_text := "console.log('loading'); throw Object.create(null);".
Definition mute_text :=
  "const mute = Object.create(null); mute.toJSON = () => { throw new Error('no JSON'); }; function solution() { return mute; }".
Definition mute_log_text :=
  "const mute = Object.create(null); mute.toJSON = () => { throw new Error('no JSON'); }; console.log('before'); console.log(mute); console.log('after'); function solution() { return 1; }".
Definition holes_text := "function solution() { return [, 1]; }".
Definition inherit_text :=
  "function solution() { return JSON.parse('{" ++ quote ++ "__proto__" ++ quote ++ ": {}}'); }".

(** The object [mute] of the examples: no prototype, and a [toJSON] that
    throws. *)
Definition mute : value := VObj Bare [("toJSON", VFun (Closure 100))].

Definition quiet {R} (r : R) (w : nat) : behaviour nat R := Finished r w.

(** A console call in the program text outside any [try]: when the call
    throws, so does the text. *)
Definition say {R} (uncaught : thrown -> R) (v : verb) (args : list value)
    (w : nat) (next : behaviour nat R) : behaviour nat R :=
  Prints {| call_verb := v; call_args := args |}
         (fun answer => match answer with
                        | None => next
                        | Some e => Finished (uncaught e) w
                        end).

Definition run_body (text : string) (w : nat) : behaviour nat body_completion :=
  let defines (f : nat) := quiet (BodyEnd (VFun (Closure f)) (VObj Plain [])) w in
  if String.eqb text sqrt_text then defines 0
  else if String.eqb text hi_text then defines 1
  else if String.eqb text silent_throw_text then
    say BodyThrow console_warn [VStr "loading"; VNum (num 1)] w
        (quiet (BodyThrow (ThrownError EmptyString)) w)
  else if String.eqb text picky_text then defines 2
  else if String.eqb text sparse_text then defines 3
  else if String.eqb text no_entry_text then
    say BodyThrow console_info [VStr "no entry point"] w
        (quiet (BodyEnd VUndefined (VObj Plain [])) w)
  else if String.eqb text exports_text then
    quiet (BodyEnd VUndefined (VFun (Closure 4))) w
  else if String.eqb text void_text then defines 5
  else if String.eqb text ready_text then
    say BodyThrow console_log [VStr "ready"; dense [VNum (num 1); VNum (num 2)]] w
        (defines 1)
  else if String.eqb text counter_text then
    quiet (BodyEnd (VFun (Closure 6)) (VObj Plain [])) 0
  else if String.eqb text bare_throw_text then defines 7
  else if String.eqb text bare_load_text then
    say BodyThrow console_log [VStr "loading"] w
        (quiet (BodyThrow (ThrownValue (VObj Bare []))) w)
  else if String.eqb text mute_text then defines 8
  else if String.eqb text mute_log_text then
    say BodyThrow console_log [VStr "before"] w
        (say BodyThrow console_log [mute] w
             (say BodyThrow console_log [VStr "after"] w (defines 1)))
  else if String.eqb text holes_text then defines 9
  else if String.eqb text inherit_text then defines 10
  else quiet (BodyThrow (ThrownError "Unexpected token ';'")) w.

Definition first_arg (args : list value) : value := nth 0 args VUndefined.

Definition apply (f : function) (args : list value) (w : nat)
  : behaviour nat (completion value) :=
  match f with
  | Closure 0 => quiet (Returns (VNum (match first_arg args with
                                       | VNum x => SFsqrt 53 1024 x
                                       | _ => S754_nan
                                       end))) w
  | Closure 1 => say Throws console_log [VStr "hi"] w
                     (quiet (Returns (VNum (num 1))) w)
  | Closure 2 => if Object_is (first_arg args) (VNum (num 2))
                 then quiet (Throws (ThrownError "boom")) w
                 else quiet (Returns (first_arg args)) w
  | Closure 3 => quiet (Returns (VObj Plain [("x", VUndefined)])) w
  | Closure 4 => quiet (Returns (first_arg args)) w
  | Closure 5 => quiet (Returns VUndefined) w
  | Closure 6 =>
      if Nat.eqb (S w) 2 then quiet (Throws (ThrownValue (VStr "second"))) (S w)
      else quiet (Returns (VNum (num (Z.of_nat (S w))))) (S w)
  | Closure 7 => if Object_is (first_arg args) (VNum (num 2))
                 then quiet (Throws (ThrownValue (VObj Bare []))) w
                 else quiet (Returns (first_arg args)) w
  | Closure 8 => quiet (Returns mute) w
  | Closure 9 => quiet (Returns (VArr [None; Some (VNum (num 1))])) w
  | Closure 10 => quiet (Returns (VObj Plain [("__proto__", VObj Plain [])])) w
  | Closure 100 => quiet (Throws (ThrownError "no JSON")) w
  | _ => quiet (Throws (ThrownError "not a function")) w
  end.

Definition the_console := snd (captureConsole JSON_stringify String_of).

Definition onmessage := onmessage run_body apply JSON_stringify String_of.

End Sample.

(** * More of the runner and of the page *)

(** ** Values without objects *)

(** Values built from primitives and arrays only. *)
Fixpoint object_free (v : value) : bool :=
  match v with
  | VObj _ _ => false
  | VArr xs =>
      forallb (fun x => match x with Some y => object_free y | None => true end) xs
  | _ => true
  end.

(** A value none of whose arrays has a hole. *)
Fixpoint hole_free (v : value) : bool :=
  match v with
  | VArr xs =>
      forallb (fun x => match x with Some y => hole_free y | None => false end) xs
  | VObj _ ps => forallb (fun kv => hole_free (snd kv)) ps
  | _ => true
  end.

(** ** The shape of a result *)

(** What the three [results.push] calls of the loop have in common: a
    passing result carries no diagnostic field, a failing one carries an
    error, and [expected] and [actual] come together, with the mismatch
    message. *)
Definition well_shaped (r : TestResult) : Prop :=
  (pass r = true -> error r = None /\ expected r = Absent /\ actual r = Absent)
  /\ (pass r = false -> error r <> None)
  /\ (expected r = Absent <-> actual r = Absent)
  /\ (expected r <> Absent -> error r = Some "Output mismatch.").

Section Verdict.

Variable JSON_stringify : value -> stringified.
Variable String_of : value -> completion string.

(** The result the loop pushes for a case, from how the call ended; the
    turn throws when its [catch] does. *)
Definition verdict (testCase : Case) (called : completion value)
  : completion TestResult :=
  catch (attempt JSON_stringify String_of testCase called)
        (rescue String_of testCase).

(** The verdicts of a list of cases in turn, up to the first that throws. *)
Fixpoint verdicts (result : list value -> completion value) (cases : list Case)
  : completion (list TestResult) :=
  match cases with
  | [] => Returns []
  | testCase :: rest =>
      r <-- verdict testCase (result (spread (case_args testCase))) ;;
      rs <-- verdicts result rest ;;
      Returns (r :: rs)
  end.

End Verdict.

(** An entry point that prints nothing, keeps no state and whose result
    depends on its arguments only. *)
Definition pure_entry (World : Type)
    (apply : function -> list value -> World -> behaviour World (completion value))
    (f : function) (result : list value -> completion value) : Prop :=
  forall args w, apply f args w = Finished (result args) w.

(** ** The page: the ids of the cases *)

(** The Numbers of this part count cases: they are integers, an infinity, or
    NaN.  An integer is a Number when 53 bits hold its digits; up to 2^53
    every integer is one, and past it the arithmetic of the language returns
    the nearest Number in place of the integer, the one with the even
    mantissa on a tie. *)
Inductive Num : Type :=
| NaN
| Int (z : Z)
| Infinity (negative : bool).

Definition SAFE_LIMIT : Z := 2 ^ 53.

Definition rounded (z : Z) : Num :=
  if (Z.abs z <? SAFE_LIMIT)%Z then Int z
  else
    let unit := (2 ^ (Z.log2 (Z.abs z) - 52))%Z in
    let q := (Z.abs z / unit)%Z in
    let r := (Z.abs z mod unit)%Z in
    let q' := if (2 * r <? unit)%Z then q
              else if (unit <? 2 * r)%Z then (q + 1)%Z
              else if Z.even q then q else (q + 1)%Z in
    if (2 ^ 1024 <=? q' * unit)%Z then Infinity (z <? 0)%Z
    else Int (Z.sgn z * (q' * unit))%Z.

(** [n + 1] *)
Definition plus_one (n : Num) : Num :=
  match n with
  | Int z => rounded (z + 1)
  | other => other
  end.

(** [Math.max(a, b)] *)
Definition Math_max (a b : Num) : Num :=
  match a, b with
  | NaN, _ | _, NaN => NaN
  | Infinity false, _ | _, Infinity false => Infinity false
  | Infinity true, other | other, Infinity true => other
  | Int x, Int y => Int (Z.max x y)
  end.

(** [Number.isNaN(n)] *)
Definition Number_isNaN (n : Num) : bool :=
  match n with NaN => true | _ => false end.

Definition is_digit (c : ascii) : bool :=
  let n := nat_of_ascii c in Nat.leb 48 n && Nat.leb n 57.

(** The longest run of digits a text starts with. *)
Fixpoint digits_prefix (s : string) : string :=
  match s with
  | EmptyString => EmptyString
  | String c s' => if is_digit c then String c (digits_prefix s') else EmptyString
  end.

(** What follows [p] in [s], when [s] starts with [p]. *)
Fixpoint strip_prefix (p s : string) : option string :=
  match p, s with
  | EmptyString, _ => Some s
  | String a p', String b s' => if Ascii.eqb a b then strip_prefix p' s' else None
  | String _ _, EmptyString => None
  end.

(** A match of [/case-(\d+)/] at the start of the text: its group 1. *)
Definition match_case_here (text : string) : option string :=
  match strip_prefix "case-" text with
  | Some rest =>
      let digits := digits_prefix rest in
      if is_empty digits then None else Some digits
  | None => None
  end.

(** [/case-(\d+)/.exec(text)]: group 1 of the leftmost match, [None] for
    [null]. *)
Fixpoint exec_case (text : string) : option string :=
  match match_case_here text with
  | Some digits => Some digits
  | None =>
      match text with
      | EmptyString => None
      | String _ text' => exec_case text'
      end
  end.

(** The integer a run of digits denotes. *)
Definition digits_value (digits : string) : Z :=
  match NilEmpty.uint_of_string digits with
  | Some d => Z.of_uint d
  | None => 0%Z
  end.

(** [Number.parseInt(text, 10)]: leading white space, a sign, then the
    longest run of digits, as a Number; [NaN] when there is no digit. *)
Definition parseInt10 (text : string) : Num :=
  let s := trimStart text in
  let signed :=
    match s with
    | String c rest =>
        if Ascii.eqb c "-"%char then (true, rest)
        else if Ascii.eqb c "+"%char then (false, rest)
        else (false, s)
    | EmptyString => (false, s)
    end in
  let digits := digits_prefix (snd signed) in
  if is_empty digits then NaN
  else rounded (if fst signed then - digits_value digits
                else digits_value digits)%Z.

(** One turn of the loop of [getNextCaseId]. *)
Definition next_max (maxId : Num) (item : TestCaseDraft) : Num :=
  match exec_case (id item) with
  | Some digits =>
      let value := parseInt10 digits in
      if negb (Number_isNaN value) then Math_max maxId value else maxId
  | None => maxId
  end.

Definition getNextCaseId (items : list TestCaseDraft) : Num :=
  plus_one (fold_left next_max items (Int 0)).

(** The decimal text of an integer. *)
Definition integer_text (z : Z) : string := NilEmpty.string_of_int (Z.to_int z).

(** The case of the examples that passes a number and expects it back. *)
Definition plain_case (n : Z) : Case :=
  {| case_name := ("Case (" ++ integer_text n ++ ")")%string;
     case_args := [Some (VNum (num n))];
     case_expected := VNum (num n) |}.

Section Ids.

(** The text of an integral Number past 2^53 (its shortest digits that read
    back as the same Number, or the exponent form from 10^21 on). *)
Variable large_text : Z -> string.

(** [String(n)] *)
Definition Number_text (n : Num) : string :=
  match n with
  | NaN => "NaN"
  | Infinity false => "Infinity"
  | Infinity true => "-Infinity"
  | Int z => if (Z.abs z <=? SAFE_LIMIT)%Z then integer_text z else large_text z
  end.

(** The id [addCase] builds from the counter: [`case-${n}`]. *)
Definition case_id (n : Num) : string := ("case-" ++ Number_text n)%string.

(** [addCase], on the list and the counter [nextId.current]. *)
Definition addCase (prev : list TestCaseDraft) (nextId : Num)
  : list TestCaseDraft * Num :=
  (prev ++ [{| id := case_id nextId; args := EmptyString;
               expected_text := EmptyString |}],
   plus_one nextId).

End Ids.

(** ** The page: editing the cases *)

(** A [Partial<TestCaseDraft>]: the fields it carries. *)
Record CasePatch : Type := {
  patch_id : option string;
  patch_args : option string;
  patch_expected : option string
}.

(** [{ ...testCase, ...patch }] *)
Definition patched (testCase : TestCaseDraft) (patch : CasePatch) : TestCaseDraft :=
  {| id := match patch_id patch with Some v => v | None => id testCase end;
     args := match patch_args patch with Some v => v | None => args testCase end;
     expected_text := match patch_expected patch with
                      | Some v => v
                      | None => expected_text testCase
                      end |}.

Definition updateCase (i : string) (patch : CasePatch)
    (prev : list TestCaseDraft) : list TestCaseDraft :=
  map (fun testCase => if String.eqb (id testCase) i
                       then patched testCase patch else testCase) prev.

Definition removeCase (i : string) (prev : list TestCaseDraft)
  : list TestCaseDraft :=
  filter (fun testCase => negb (String.eqb (id testCase) i)) prev.

(** The cases of a saved state taking the place of the list:
    [setCases(saved.cases);
     nextId.current = Math.max(nextId.current, getNextCaseId(saved.cases))]. *)
Definition restoreCases (saved : list TestCaseDraft) (nextId : Num)
  : list TestCaseDraft * Num :=
  (saved, Math_max nextId (getNextCaseId saved)).

(** The number [getNextCaseId] reads in an id, if it reads one. *)
Definition found_in (text : string) : option Z :=
  match exec_case text with
  | Some digits => Some (digits_value digits)
  | None => None
  end.

(** Every number read in the ids is below 2^53. *)
Definition below_limit (cases : list TestCaseDraft) : Prop :=
  forall testCase z, In testCase cases -> found_in (id testCase) = Some z ->
                     (z < SAFE_LIMIT)%Z.

(** No case bears an id the counter produces from [n] up to 2^53. *)
Definition fresh_above (n : Z) (cases : list TestCaseDraft) : Prop :=
  forall testCase k, In testCase cases -> (n <= k <= SAFE_LIMIT)%Z ->
                     id testCase <> ("case-" ++ integer_text k)%string.

(** ** The page: showing a response *)

Inductive Status := idle | running | failed.

Record RunView : Type := {
  view_status : Status;
  view_results : list TestResult;
  view_logs : list string;
  view_error : option string
}.

(** The resets of [handleRun] before it posts the request. *)
Definition started (v : RunView) : RunView :=
  {| view_status := running; view_results := []; view_logs := [];
     view_error := None |}.

(** [worker.onmessage] of the page. *)
Definition received (response : WorkerResponse) (v : RunView) : RunView :=
  match response with
  | Success results logs =>
      {| view_status := idle; view_results := results; view_logs := logs;
         view_error := None |}
  | Failure message logs =>
      {| view_status := failed; view_results := []; view_logs := logs;
         view_error := Some message |}
  end.

(** What the page shows after a run: the handler runs once for each message
    the worker posts, so not at all when the worker posts none. *)
Definition shown_after (posted : option WorkerResponse) (v : RunView) : RunView :=
  match posted with
  | Some response => received response (started v)
  | None => started v
  end.

(** [{error && <p className="error">{error}</p>}]: the text of the error
    paragraph, if the page renders one. *)
Definition error_paragraph (v : RunView) : option string :=
  match view_error v with
  | Some message => if is_empty message then None else Some message
  | None => None
  end.

(** [results.filter((result) => result.pass).length] *)
Definition passCount (results : list TestResult) : nat :=
  List.length (filter pass results).

Fixpoint all_digits (s : string) : bool :=
  match s with
  | EmptyString => true
  | String c s' => is_digit c && all_digits s'
  end.

(** The cases the page starts with, and the counter's first value
    ([useRef(4)]). *)
Definition defaultCases : list TestCaseDraft :=
  [{| id := "case-1"; args := "9"; expected_text := "3" |};
   {| id := "case-2"; args := "0"; expected_text := "0" |};
   {| id := "case-3"; args := "2"; expected_text := "1.41421356237" |}].

Definition firstNextId : Num := Int 4.

(** ** The persistence adapter *)

Definition STORAGE_KEY : string := "vibe-coding:workspace:v1".

(** [v.key] for a key that is not an index or a built-in property of
    arrays, strings, numbers, booleans or functions: what [get] reads on an
    object, [undefined] on anything else.  (On [undefined] and [null] the
    access throws; the callers guard against them.) *)
Definition member (v : value) (key : string) : value :=
  match v with
  | VObj k ps => get k ps key
  | _ => VUndefined
  end.

(** [v === 1] *)
Definition is_one (v : value) : bool :=
  match v with
  | VNum n => same_number n (num 1)
  | _ => false
  end.

(** The browser as the adapter sees it: whether there is a [window], whether
    [window.localStorage] can be reached (the access throws when storage is
    blocked), whether [setItem] accepts a write (it throws when the quota is
    exceeded), and the items of the storage. *)
Record Browser : Type := {
  has_window : bool;
  storage_reachable : bool;
  storage_writable : bool;
  items : string -> option string
}.

Record PersistedState : Type := {
  saved_prompt : string;
  saved_code : string;
  saved_cases : list TestCaseDraft;
  saved_apiKey : string
}.

(** The object a state is, [{ version: 1, prompt, code, cases, apiKey }],
    each case [{ id, args, expected }]. *)
Definition draft_value (d : TestCaseDraft) : value :=
  VObj Plain [("id", VStr (id d)); ("args", VStr (args d));
        ("expected", VStr (expected_text d))].

Definition state_value (s : PersistedState) : value :=
  VObj Plain
       [("version", VNum (num 1));
        ("prompt", VStr (saved_prompt s));
        ("code", VStr (saved_code s));
        ("cases", dense (map draft_value (saved_cases s)));
        ("apiKey", VStr (saved_apiKey s))].

(** A storage event, as far as the handler reads it. *)
Record StorageEvent : Type := {
  event_key : option string;
  event_newValue : option string
}.

Section Persistence.

Variable JSON_parse : string -> option value.
Variable JSON_stringify : value -> stringified.

(** The checks [load] and the storage handler share: the text parses, and
    the data is truthy with [version] 1. *)
Definition accepted (raw : string) : option value :=
  match JSON_parse raw with
  | Some data =>
      if falsy data || negb (is_one (member data "version")) then None
      else Some data
  | None => None
  end.

(** [localStorageAdapter.load()]: [None] for [null]. *)
Definition load (b : Browser) : option value :=
  if negb (has_window b) then None
  else if negb (storage_reachable b) then None
  else
    match items b STORAGE_KEY with
    | None => None
    | Some raw => if is_empty raw then None else accepted raw
    end.

Definition setItem (key text : string) (b : Browser) : Browser :=
  {| has_window := has_window b;
     storage_reachable := storage_reachable b;
     storage_writable := storage_writable b;
     items := fun k => if String.eqb k key then Some text else items b k |}.

(** [localStorageAdapter.save(state)]: the browser it leaves.  A text that
    is [undefined] would be stored as the string it converts to. *)
Definition save (state : value) (b : Browser) : Browser :=
  if negb (has_window b) then b
  else
    match JSON_stringify state with
    | SThrows => b
    | SText text =>
        if storage_reachable b && storage_writable b
        then setItem STORAGE_KEY text b else b
    | SUndefined =>
        if storage_reachable b && storage_writable b
        then setItem STORAGE_KEY "undefined" b else b
    end.

(** The handler [subscribe] registers: what it passes to [onChange], if
    anything. *)
Definition storage_handler (event : StorageEvent) : option value :=
  match event_key event, event_newValue event with
  | Some key, Some newValue =>
      if negb (String.eqb key STORAGE_KEY) || is_empty newValue then None
      else accepted newValue
  | _, _ => None
  end.

End Persistence.

(** A browser and a state for the examples, with stand-ins for the two JSON
    functions that are exact on that state. *)
Module SampleStore.

Definition state : PersistedState :=
  {| saved_prompt := "square root";
     saved_code := Sample.sqrt_text;
     saved_cases := defaultCases;
     saved_apiKey := EmptyString |}.

Definition text : string :=
  match Sample.json_text (state_value state) with
  | Some t => t
  | None => EmptyString
  end.

Definition JSON_parse (raw : string) : option value :=
  if String.eqb raw text then Some (state_value state) else None.

Definition browser : Browser :=
  {| has_window := true; storage_reachable := true; storage_writable := true;
     items := fun _ => None |}.

End SampleStore.

(** ** The generation route *)

(** What [await] gives: the value of a fulfilled promise, or what a rejected
    one throws. *)
Inductive awaited (A : Type) : Type :=
| Fulfilled (a : A)
| Rejected (e : thrown).
Arguments Rejected {A} e.

Record Environment : Type := {
  LLM_API_URL : option string;
  LLM_API_KEY : option string;
  LLM_MODEL : option string
}.

(** The request as the route reads it: what [request.json()] gives and the
    header [x-llm-key] ([None] for [null]). *)
Record RouteRequest : Type := {
  request_json : awaited value;
  x_llm_key : option string
}.

(** One call of [fetch]: the url, the [Authorization] header and the object
    whose JSON text is the body. *)
Record UpstreamCall : Type := {
  call_url : string;
  call_authorization : string;
  call_payload : value
}.

Record UpstreamResponse : Type := {
  up_status : nat;
  up_text : awaited string;
  up_json : awaited value
}.

(** [response.ok]: the status is in the range 200 to 299. *)
Definition up_ok (r : UpstreamResponse) : bool :=
  Nat.leb 200 (up_status r) && Nat.leb (up_status r) 299.

Inductive RouteBody : Type :=
| ErrorBody (message : string)
| CodeBody (generated : value).

Record RouteResponse : Type := {
  route_status : nat;
  route_body : RouteBody
}.

Definition route_ok (r : RouteResponse) : bool :=
  Nat.leb 200 (route_status r) && Nat.leb (route_status r) 299.

Definition SYSTEM_PROMPT : string :=
  "You write JavaScript only. Return only the function definition for solution(n) with no extra text.".

(** The number 0.2. *)
Definition temperature : number := SFdiv 53 1024 (num 1) (num 5).

Definition payload (model prompt : string) : value :=
  VObj Plain
       [("model", VStr model);
        ("messages",
         dense [VObj Plain [("role", VStr "system"); ("content", VStr SYSTEM_PROMPT)];
                VObj Plain [("role", VStr "user"); ("content", VStr prompt)]]);
        ("temperature", VNum temperature)].

(** [v?.key] *)
Definition optional_member (v : value) (key : string) : value :=
  match v with
  | VUndefined | VNull => VUndefined
  | _ => member v key
  end.

(** [v?.[0]]: the first element of an array, the first character of a
    string, the property ["0"] of an object. *)
Definition optional_first (v : value) : value :=
  match v with
  | VArr xs => at_index xs 0
  | VStr (String c _) => VStr (String c EmptyString)
  | VObj k ps => get k ps "0"
  | _ => VUndefined
  end.

(** An environment variable or header that is missing or empty: [!x]. *)
Definition unset (x : option string) : bool :=
  match x with
  | None => true
  | Some s => is_empty s
  end.

(** [header ?? fromEnv] *)
Definition coalesce (header fromEnv : option string) : option string :=
  match header with
  | Some key => Some key
  | None => fromEnv
  end.

(** [data?.choices?.[0]?.message?.content] *)
Definition first_choice_content (data : value) : value :=
  optional_member
    (optional_member (optional_first (optional_member data "choices")) "message")
    "content".

(** The [catch] clause of the route:
    [error instanceof Error ? error.message : "Unknown error."]. *)
Definition route_error_text (e : thrown) : string :=
  match e with
  | ThrownError message => message
  | ThrownValue _ => "Unknown error."
  end.

Definition caught (e : thrown) : RouteResponse :=
  {| route_status := 500; route_body := ErrorBody (route_error_text e) |}.

Section Route.

(** [fetch], and the engine's part in two failures: the error thrown by a
    call of [trim] on a prompt that is not a string, and the error
    [NextResponse.json] throws for a status it does not accept (none for the
    statuses the route writes itself). *)
Variable fetch : UpstreamCall -> awaited UpstreamResponse.
Variable not_a_function : thrown.
Variable refused_status : nat -> option thrown.

(** [body?.prompt] as [body?.prompt?.trim()] reads it: nothing when it is
    [undefined] or [null], the text when it is a string, and otherwise the
    throw of calling [trim] on something that has none (the body is JSON: it
    holds no function). *)
Definition prompt_text (body : value) : awaited (option string) :=
  match optional_member body "prompt" with
  | VUndefined | VNull => Fulfilled None
  | VStr s => Fulfilled (Some s)
  | _ => Rejected not_a_function
  end.

(** The part of [POST] after the configuration is read. *)
Definition generate (apiUrl apiKey model prompt : string)
  : RouteResponse * list UpstreamCall :=
  let call := {| call_url := apiUrl;
                 call_authorization := ("Bearer " ++ apiKey)%string;
                 call_payload := payload model prompt |} in
  match fetch call with
  | Rejected e => (caught e, [call])
  | Fulfilled response =>
      if negb (up_ok response) then
        match up_text response with
        | Rejected e => (caught e, [call])
        | Fulfilled errorText =>
            match refused_status (up_status response) with
            | Some e => (caught e, [call])
            | None =>
                ({| route_status := up_status response;
                    route_body := ErrorBody ("LLM request failed: " ++ errorText)%string |},
                 [call])
            end
        end
      else
        match up_json response with
        | Rejected e => (caught e, [call])
        | Fulfilled data =>
            let code :=
              optional_member
                (optional_member
                   (optional_first (optional_member data "choices"))
                   "message")
                "content" in
            if falsy code then
              ({| route_status := 502;
                  route_body := ErrorBody "LLM response missing code content." |},
               [call])
            else ({| route_status := 200; route_body := CodeBody code |}, [call])
        end
  end.

Definition MISSING_PROMPT : RouteResponse :=
  {| route_status := 400; route_body := ErrorBody "Missing prompt." |}.

Definition NOT_CONFIGURED : RouteResponse :=
  {| route_status := 500;
     route_body := ErrorBody "LLM_API_URL and LLM_MODEL must be set. Provide LLM_API_KEY in env or via the UI input." |}.

(** [POST(request)]: the response, and the calls of [fetch] it made. *)
Definition POST (env : Environment) (request : RouteRequest)
  : RouteResponse * list UpstreamCall :=
  match request_json request with
  | Rejected e => (caught e, [])
  | Fulfilled body =>
      match prompt_text body with
      | Rejected e => (caught e, [])
      | Fulfilled None => (MISSING_PROMPT, [])
      | Fulfilled (Some prompt) =>
          if is_empty (trim prompt) then (MISSING_PROMPT, [])
          else
            let apiKey := match x_llm_key request with
                          | Some key => Some key
                          | None => LLM_API_KEY env
                          end in
            match LLM_API_URL env, apiKey, LLM_MODEL env with
            | Some apiUrl, Some key, Some model =>
                if is_empty apiUrl || is_empty key || is_empty model
                then (NOT_CONFIGURED, [])
                else generate apiUrl key model prompt
            | _, _, _ => (NOT_CONFIGURED, [])
            end
      end
  end.

End Route.


(** An upstream and a configuration for the examples: the upstream answers
    200 with one choice when the key is "sk-sample", and 401 otherwise. *)
Module SampleRoute.

Local Open Scope string_scope.

Definition env : Environment :=
  {| LLM_API_URL := Some "https://llm.example/v1/chat/completions";
     LLM_API_KEY := Some "sk-sample";
     LLM_MODEL := Some "sample-model" |}.

Definition completion_data : value :=
  VObj Plain
       [("choices",
         dense [VObj Plain [("message",
                      VObj Plain [("role", VStr "assistant");
                            ("content", VStr Sample.sqrt_text)])]])].

Definition fetch (call : UpstreamCall) : awaited UpstreamResponse :=
  if String.eqb (call_authorization call) "Bearer sk-sample" then
    Fulfilled {| up_status := 200;
                 up_text := Rejected (ThrownError "body already read");
                 up_json := Fulfilled completion_data |}
  else
    Fulfilled {| up_status := 401;
                 up_text := Fulfilled "bad key";
                 up_json := Rejected (ThrownError "body already read") |}.

Definition not_a_function : thrown :=
  ThrownError "body.prompt.trim is not a function".

Definition refused_status (status : nat) : option thrown :=
  if Nat.ltb status 200 || Nat.ltb 599 status
  then Some (ThrownError "status out of range")
  else None.

Definition request (prompt : string) (key : option string) : RouteRequest :=
  {| request_json := Fulfilled (VObj Plain [("prompt", VStr prompt)]);
     x_llm_key := key |}.

Definition POST := POST fetch not_a_function refused_status.

End SampleRoute.

(** ** The page: generating *)

(** The call of [fetch] by the page: the header [X-LLM-Key], when it is
    sent, and the object whose JSON text is the body. *)
Record PageCall : Type := {
  sent_key : option string;
  sent_body : value
}.

(** What the page reads of the response: [response.ok] and what
    [response.json()] gives. *)
Record PageResponse : Type := {
  page_ok : bool;
  page_json : awaited value
}.

(** The state [handleGenerate] writes: the view, and the code of the
    editor. *)
Record Workspace : Type := {
  view : RunView;
  editor_code : value
}.

(** The request of [handleGenerate]: the header is there when [apiKey] is
    truthy. *)
Definition generate_call (apiKey prompt : string) : PageCall :=
  {| sent_key := if is_empty apiKey then None else Some apiKey;
     sent_body := VObj Plain [("prompt", VStr prompt)] |}.

(** The [catch] clause of [handleGenerate]. *)
Definition generation_failed (e : thrown) (w : Workspace) : Workspace :=
  {| view := {| view_status := failed; view_results := []; view_logs := [];
                view_error := Some (route_error_text e) |};
     editor_code := editor_code w |}.

Section Generate.

(** [String(...)], [fetch] as the page calls it, and the error of reading a
    property of [null]. *)
Variable String_of : value -> completion string.
Variable page_fetch : PageCall -> awaited PageResponse.
Variable null_member : thrown.

(** The message of [new Error(data?.error ?? "Failed to generate code.")]:
    the constructor converts what it is given to a string, which may
    throw. *)
Definition failure_message (data : value) : completion string :=
  match optional_member data "error" with
  | VUndefined | VNull => Returns "Failed to generate code."
  | VStr message => Returns message
  | v => String_of v
  end.

(** [handleGenerate()], from the state it starts in to the one it ends
    in. *)
Definition handleGenerate (apiKey prompt : string) (w : Workspace) : Workspace :=
  match page_fetch (generate_call apiKey prompt) with
  | Rejected e => generation_failed e w
  | Fulfilled response =>
      match page_json response with
      | Rejected e => generation_failed e w
      | Fulfilled data =>
          if negb (page_ok response) then
            match failure_message data with
            | Returns message => generation_failed (ThrownError message) w
            | Throws e => generation_failed e w
            end
          else
            match data with
            | VUndefined | VNull => generation_failed null_member w
            | _ =>
                {| view := {| view_status := idle; view_results := [];
                              view_logs := []; view_error := None |};
                   editor_code := match member data "code" with
                                  | VUndefined | VNull => VStr EmptyString
                                  | v => v
                                  end |}
            end
      end
  end.

End Generate.

(** The response of the route as it reaches the page: [NextResponse.json]
    writes the body as JSON text and [response.json()] reads it back;
    [wire] is what that does to the code. *)
Definition delivered (wire : value -> value) (r : RouteResponse) : PageResponse :=
  {| page_ok := route_ok r;
     page_json := Fulfilled
                    match route_body r with
                    | ErrorBody message => VObj Plain [("error", VStr message)]
                    | CodeBody generated => VObj Plain [("code", wire generated)]
                    end |}.

(** The page of the examples: its [fetch] hands the call to the sample
    route and gets the answer as it is. *)
Module SamplePage.

Local Open Scope string_scope.

Definition page_fetch (call : PageCall) : awaited PageResponse :=
  Fulfilled
    (delivered (fun v => v)
       (fst (SampleRoute.POST SampleRoute.env
               {| request_json := Fulfilled (sent_body call);
                  x_llm_key := sent_key call |}))).

Definition null_member : thrown :=
  ThrownError "Cannot read properties of null (reading 'code')".

Definition workspace : Workspace :=
  {| view := {| view_status := idle; view_results := []; view_logs := [];
                view_error := None |};
     editor_code := VStr EmptyString |}.

End SamplePage.


(** * Properties *)

Unset Implicit Arguments.

(** ** Lists and strings *)

Lemma every_spec A B (present : A -> option B) (f : B -> nat -> bool) xs i :
  every present f xs i = true <->
  forall n x y, nth_error xs n = Some x -> present x = Some y ->
                f y (i + n) = true.
Proof.
  revert i. induction xs as [|z xs IH]; intros i; simpl.
  - split; [intros _ [|n] x y; discriminate | reflexivity].
  - destruct (present z) as [w|] eqn:Hz.
    + rewrite andb_true_iff, IH. split.
      * intros [Hy Hxs] [|n] x y Hn Hp; simpl in Hn.
        -- injection Hn as <-. rewrite Hz in Hp. injection Hp as <-.
           now rewrite Nat.add_0_r.
        -- replace (i + S n) with (S i + n) by lia. now apply (Hxs n x).
      * intros H. split.
        -- rewrite <- (Nat.add_0_r i). now apply (H 0 z).
        -- intros n x y Hn Hp. replace (S i + n) with (i + S n) by lia.
           now apply (H (S n) x).
    + rewrite IH. split.
      * intros Hxs [|n] x y Hn Hp; simpl in Hn.
        -- injection Hn as <-. congruence.
        -- replace (i + S n) with (S i + n) by lia. now apply (Hxs n x).
      * intros H n x y Hn Hp. replace (S i + n) with (i + S n) by lia.
        now apply (H (S n) x).
Qed.

Lemma every_forallb A (g : A -> bool) xs i :
  every (fun x => Some x) (fun x _ => g x) xs i = forallb g xs.
Proof.
  revert i. induction xs as [|y xs IH]; intros i; simpl; [reflexivity|].
  now rewrite IH.
Qed.

Lemma distinct_NoDup ks : distinct ks = true <-> NoDup ks.
Proof.
  induction ks as [|k ks IH]; simpl.
  - split; [constructor | reflexivity].
  - rewrite andb_true_iff, negb_true_iff, IH. split.
    + intros [Hk Hks]. constructor; [|assumption].
      intros Hin. apply not_true_iff_false in Hk. apply Hk.
      apply existsb_exists. exists k. split; [assumption | apply String.eqb_refl].
    + intros H. inversion H as [|? ? Hk Hks]; subst. split; [|assumption].
      apply not_true_iff_false. intros He. apply existsb_exists in He.
      destruct He as [k' [Hin He]]. apply String.eqb_eq in He. now subst.
Qed.

Lemma own_absent ps k : ~ In k (keys ps) -> own ps k = None.
Proof.
  induction ps as [|[k' v] ps IH]; simpl; intros H; [reflexivity|].
  destruct (String.eqb_spec k' k) as [->|_].
  - exfalso. apply H. now left.
  - apply IH. intros Hin. apply H. now right.
Qed.

Lemma own_In ps k v : NoDup (keys ps) -> In (k, v) ps -> own ps k = Some v.
Proof.
  induction ps as [|[k' v'] ps IH]; simpl; intros Hnd Hin; [contradiction|].
  inversion Hnd as [|? ? Hk Hks]; subst.
  destruct Hin as [Heq|Hin].
  - injection Heq as -> ->. now rewrite String.eqb_refl.
  - destruct (String.eqb_spec k' k) as [->|_]; [|now apply IH].
    exfalso. apply Hk. change k with (fst (k, v)). now apply in_map.
Qed.

Lemma own_present ps k :
  In k (keys ps) -> exists v, own ps k = Some v /\ In (k, v) ps.
Proof.
  induction ps as [|[k' v] ps IH]; simpl; intros H; [contradiction|].
  destruct (String.eqb_spec k' k) as [->|Hne].
  - exists v. split; [reflexivity | now left].
  - destruct H as [H|H]; [contradiction|].
    destruct (IH H) as [w [Hw Hin]]. exists w. split; [assumption | now right].
Qed.

(** A read under an own key does not reach the prototypes, and a read under
    any other key reads nothing else. *)
Lemma get_In kd ps k v : NoDup (keys ps) -> In (k, v) ps -> get kd ps k = v.
Proof. intros Hnd Hin. unfold get. now rewrite (own_In _ _ _ Hnd Hin). Qed.

Lemma get_absent kd ps k : ~ In k (keys ps) -> get kd ps k = inherited kd k.
Proof. intros H. unfold get. now rewrite own_absent. Qed.

Lemma get_present kd ps k : In k (keys ps) -> In (k, get kd ps k) ps.
Proof.
  intros H. destruct (own_present _ _ H) as [v [Hv Hin]].
  unfold get. now rewrite Hv.
Qed.

Lemma at_index_dense xs n :
  at_index (map Some xs) n = nth n xs VUndefined.
Proof.
  unfold at_index. revert n. induction xs as [|x xs IH]; intros [|n]; simpl;
    try reflexivity. apply IH.
Qed.

(** ** Object.is *)

Lemma same_number_eq x y : same_number x y = true <-> x = y.
Proof.
  split.
  - destruct x, y; simpl; try discriminate; try reflexivity.
    + intros H. apply Bool.eqb_prop in H. now subst.
    + intros H. apply Bool.eqb_prop in H. now subst.
    + rewrite !andb_true_iff. intros [[Hs Hm] He].
      apply Bool.eqb_prop in Hs. apply Pos.eqb_eq in Hm. apply Z.eqb_eq in He.
      now subst.
  - intros <-. destruct x; simpl; try reflexivity.
    + apply Bool.eqb_reflx.
    + apply Bool.eqb_reflx.
    + now rewrite Bool.eqb_reflx, Pos.eqb_refl, Z.eqb_refl.
Qed.

Lemma same_function_eq f g : same_function f g = true <-> f = g.
Proof.
  split.
  - destruct f, g; simpl; try discriminate; intros H.
    + apply Nat.eqb_eq in H. now subst.
    + apply String.eqb_eq in H. now subst.
  - intros <-. destruct f; simpl; [apply Nat.eqb_refl | apply String.eqb_refl].
Qed.

Lemma Object_is_eq a b : Object_is a b = true -> a = b.
Proof.
  destruct a, b; simpl; try discriminate; try reflexivity; intros H.
  - apply Bool.eqb_prop in H. now subst.
  - apply same_number_eq in H. now subst.
  - apply String.eqb_eq in H. now subst.
  - apply same_function_eq in H. now subst.
Qed.

Lemma Object_is_refl a : primitive a = true -> Object_is a a = true.
Proof.
  destruct a; simpl; try discriminate; intros _; try reflexivity.
  - apply Bool.eqb_reflx.
  - now apply same_number_eq.
  - apply String.eqb_refl.
  - now apply same_function_eq.
Qed.

Lemma Object_is_sym a b : Object_is a b = Object_is b a.
Proof.
  destruct (Object_is a b) eqn:Hab; destruct (Object_is b a) eqn:Hba;
    try reflexivity.
  - pose proof (Object_is_eq _ _ Hab). subst b. congruence.
  - pose proof (Object_is_eq _ _ Hba). subst b. congruence.
Qed.

(** ** deepEqual, clause by clause *)

Lemma deepEqual_primitive_l a b :
  primitive a = true -> deepEqual a b = Object_is a b.
Proof.
  destruct a; try discriminate; intros _; destruct b; simpl;
    try reflexivity;
    match goal with |- (if ?c then _ else _) = _ => destruct c; reflexivity end.
Qed.

Lemma deepEqual_primitive_r a b :
  primitive b = true -> deepEqual a b = Object_is a b.
Proof.
  intros Hb. destruct a; try (apply deepEqual_primitive_l; reflexivity);
    destruct b; try discriminate; reflexivity.
Qed.

Lemma deepEqual_arr xs ys :
  deepEqual (VArr xs) (VArr ys) =
  Nat.eqb (List.length xs) (List.length ys)
  && every position (fun x index => deepEqual x (at_index ys index)) xs 0.
Proof.
  simpl. now destruct (Nat.eqb (List.length xs) (List.length ys)).
Qed.

Lemma deepEqual_obj ka kb ps qs :
  deepEqual (VObj ka ps) (VObj kb qs) =
  Nat.eqb (List.length (keys ps)) (List.length (keys qs))
  && forallb (fun kv => deepEqual (snd kv) (get kb qs (fst kv))) ps.
Proof.
  simpl. unfold property. rewrite every_forallb.
  now destruct (Nat.eqb (List.length (keys ps)) (List.length (keys qs))).
Qed.

Lemma deepEqual_arr_obj xs kb qs : deepEqual (VArr xs) (VObj kb qs) = false.
Proof. reflexivity. Qed.

Lemma deepEqual_obj_arr ka ps ys : deepEqual (VObj ka ps) (VArr ys) = false.
Proof. reflexivity. Qed.

(** Nothing but [undefined] equals [undefined]. *)
Lemma deepEqual_undefined_r a :
  deepEqual a VUndefined = true <-> a = VUndefined.
Proof.
  rewrite deepEqual_primitive_r by reflexivity. split.
  - apply Object_is_eq.
  - now intros ->.
Qed.

(** ** Well-formed and JSON-derived values *)

Lemma well_formed_arr xs x :
  well_formed (VArr xs) = true -> In (Some x) xs -> well_formed x = true.
Proof.
  simpl. intros H Hin. rewrite forallb_forall in H. exact (H _ Hin).
Qed.

Lemma well_formed_obj kd ps k v :
  well_formed (VObj kd ps) = true -> In (k, v) ps -> well_formed v = true.
Proof.
  simpl. rewrite andb_true_iff. intros [_ H] Hin.
  rewrite forallb_forall in H. exact (H (k, v) Hin).
Qed.

Lemma well_formed_keys kd ps : well_formed (VObj kd ps) = true -> NoDup (keys ps).
Proof. simpl. rewrite andb_true_iff. intros [H _]. now apply distinct_NoDup. Qed.

Lemma json_derived_well_formed v : json_derived v = true -> well_formed v = true.
Proof.
  induction v as [| | | | | |xs IH|kd ps IH] using value_ind; simpl;
    try reflexivity; try discriminate.
  - rewrite !forallb_forall. rewrite Forall_forall in IH.
    intros H [x|] Hin; [|reflexivity].
    apply (IH _ Hin). exact (H _ Hin).
  - destruct kd; try discriminate.
    rewrite !andb_true_iff, !forallb_forall. rewrite Forall_forall in IH.
    intros [Hd Hj]. split; [assumption|]. auto.
Qed.

Lemma json_derived_arr xs x :
  json_derived (VArr xs) = true -> In x xs ->
  exists y, x = Some y /\ json_derived y = true.
Proof.
  simpl. intros H Hin. rewrite forallb_forall in H. specialize (H _ Hin).
  destruct x as [y|]; [now exists y | discriminate].
Qed.

Lemma json_derived_obj kd ps k v :
  json_derived (VObj kd ps) = true -> In (k, v) ps -> json_derived v = true.
Proof.
  simpl. destruct kd; try discriminate.
  rewrite andb_true_iff. intros [_ H] Hin.
  rewrite forallb_forall in H. exact (H (k, v) Hin).
Qed.

Lemma json_derived_plain kd ps : json_derived (VObj kd ps) = true -> kd = Plain.
Proof. now destruct kd. Qed.

Lemma json_derived_defined v : json_derived v = true -> v <> VUndefined.
Proof. now destruct v. Qed.

Lemma proto_free_arr xs x :
  proto_free (VArr xs) = true -> In (Some x) xs -> proto_free x = true.
Proof.
  simpl. intros H Hin. rewrite forallb_forall in H. exact (H _ Hin).
Qed.

Lemma proto_free_obj kd ps k v :
  proto_free (VObj kd ps) = true -> In (k, v) ps -> proto_free v = true.
Proof.
  simpl. rewrite andb_true_iff. intros [_ H] Hin.
  rewrite forallb_forall in H. exact (H (k, v) Hin).
Qed.

Lemma proto_free_keys kd ps k :
  proto_free (VObj kd ps) = true -> In k (keys ps) -> k <> "__proto__".
Proof.
  simpl. rewrite andb_true_iff, negb_true_iff. intros [H _] Hin ->.
  apply not_true_iff_false in H. apply H. apply existsb_exists.
  exists "__proto__". split; [assumption | reflexivity].
Qed.

(** What an object inherits under a name other than [__proto__] is a
    function or nothing, which no JSON-derived value equals. *)
Lemma inherited_unlike v kd k :
  json_derived v = true -> k <> "__proto__" ->
  deepEqual v (inherited kd k) = false.
Proof.
  intros Hv Hk.
  assert (Hm : deepEqual v (Object_prototype_member k) = false).
  { unfold Object_prototype_member.
    destruct (String.eqb k "constructor");
      [|destruct (existsb (String.eqb k) Object_prototype_methods)];
      rewrite deepEqual_primitive_r by reflexivity;
      destruct v; try reflexivity; discriminate Hv. }
  apply String.eqb_neq in Hk.
  destruct kd; simpl; rewrite ?Hk; try assumption.
  rewrite deepEqual_primitive_r by reflexivity.
  destruct v; try reflexivity; discriminate Hv.
Qed.

(** ** Reflexivity *)

(** Comparing a value with itself (or with a copy of itself) succeeds. *)
Lemma deepEqual_refl a : well_formed a = true -> deepEqual a a = true.
Proof.
  induction a as [| | | | | |xs IH|kd ps IH] using value_ind; intros Hwf;
    try (rewrite deepEqual_primitive_l by reflexivity;
         now apply Object_is_refl).
  - rewrite deepEqual_arr, Nat.eqb_refl. simpl. apply every_spec.
    intros n x y Hn Hp. unfold position in Hp. subst x. simpl.
    unfold at_index. rewrite Hn.
    apply nth_error_In in Hn. rewrite Forall_forall in IH.
    apply (IH _ Hn). now apply (well_formed_arr _ _ Hwf).
  - rewrite deepEqual_obj, Nat.eqb_refl. simpl. apply forallb_forall.
    intros [k v] Hin. simpl.
    rewrite (get_In _ _ _ _ (well_formed_keys _ _ Hwf) Hin).
    rewrite Forall_forall in IH. apply (IH (k, v) Hin).
    now apply (well_formed_obj _ _ _ _ Hwf Hin).
Qed.

(** ** Objects and their key sets *)

(** When no property of [a] equals what [b] inherits under its name,
    [deepEqual] is equality of the key sets together with equality of the
    values key by key. *)
Lemma deepEqual_obj_spec ka kb ps qs :
  NoDup (keys ps) -> NoDup (keys qs) ->
  (forall k v, In (k, v) ps -> ~ In k (keys qs) ->
               deepEqual v (inherited kb k) = false) ->
  deepEqual (VObj ka ps) (VObj kb qs) = true <->
  (forall k, In k (keys ps) <-> In k (keys qs)) /\
  (forall k, In k (keys ps) -> deepEqual (get ka ps k) (get kb qs k) = true).
Proof.
  intros Hps Hqs Hun. split.
  - intros H. rewrite deepEqual_obj, andb_true_iff in H. destruct H as [Hlen H].
    apply Nat.eqb_eq in Hlen. rewrite forallb_forall in H.
    assert (Hincl : incl (keys ps) (keys qs)).
    { intros k Hk.
      destruct (in_dec string_dec k (keys qs)) as [Hin|Hout]; [assumption|].
      exfalso. pose proof (get_present ka _ _ Hk) as Hp.
      specialize (H _ Hp). simpl in H.
      rewrite (get_absent kb _ _ Hout) in H.
      rewrite (Hun _ _ Hp Hout) in H. discriminate. }
    split.
    + intros k. split; [apply Hincl|].
      apply (NoDup_length_incl Hps); [lia | assumption].
    + intros k Hk. apply (get_present ka) in Hk. exact (H _ Hk).
  - intros [Hkeys Hvals]. rewrite deepEqual_obj, andb_true_iff. split.
    + apply Nat.eqb_eq. apply Nat.le_antisymm.
      * apply NoDup_incl_length; [assumption|]. intros k. apply Hkeys.
      * apply NoDup_incl_length; [assumption|]. intros k. apply Hkeys.
    + apply forallb_forall. intros [k v] Hin. simpl.
      rewrite <- (get_In ka _ _ _ Hps Hin). apply Hvals.
      change k with (fst (k, v)). now apply in_map.
Qed.

(** The condition of [deepEqual_obj_spec] for JSON-derived objects without
    a property named [__proto__]. *)
Lemma json_unlike_inherited kd kb ps qs :
  json_derived (VObj kd ps) = true -> proto_free (VObj kd ps) = true ->
  forall k v, In (k, v) ps -> ~ In k (keys qs) ->
              deepEqual v (inherited kb k) = false.
Proof.
  intros Hj Hp k v Hin _. apply inherited_unlike.
  - exact (json_derived_obj _ _ _ _ Hj Hin).
  - apply (proto_free_keys _ _ _ Hp). change k with (fst (k, v)).
    now apply in_map.
Qed.

(** ** Symmetry *)

Lemma deepEqual_sym_true a :
  forall b, json_derived a = true -> json_derived b = true ->
            proto_free a = true -> proto_free b = true ->
            deepEqual a b = true -> deepEqual b a = true.
Proof.
  induction a as [| |t|n|s|f|xs IH|ka ps IH] using value_ind;
    intros b Ha Hb Pa Pb H;
    try (rewrite deepEqual_primitive_l in H by reflexivity;
         rewrite deepEqual_primitive_r by reflexivity;
         now rewrite Object_is_sym).
  - destruct b as [| | | | | |ys|kb qs]; try discriminate H.
    rewrite deepEqual_arr, andb_true_iff in *. destruct H as [Hlen H].
    apply Nat.eqb_eq in Hlen. split; [now apply Nat.eqb_eq|].
    rewrite every_spec in *. intros n y' y Hn Hy. unfold position in Hy.
    subst y'. simpl.
    assert (Hlt : n < List.length xs).
    { rewrite Hlen. apply nth_error_Some. congruence. }
    destruct (nth_error xs n) as [x'|] eqn:Hx;
      [|apply nth_error_None in Hx; lia].
    destruct (json_derived_arr _ _ Ha (nth_error_In _ _ Hx)) as [x [-> Hjx]].
    specialize (H n (Some x) x Hx eq_refl). simpl in H. unfold at_index in *.
    rewrite Hn in H. rewrite Hx.
    rewrite Forall_forall in IH. apply nth_error_In in Hx, Hn.
    apply (IH _ Hx); try assumption.
    + destruct (json_derived_arr _ _ Hb Hn) as [y0 [Hy0 Hjy]].
      injection Hy0 as <-. exact Hjy.
    + exact (proto_free_arr _ _ Pa Hx).
    + exact (proto_free_arr _ _ Pb Hn).
  - destruct b as [| | | | | |ys|kb qs]; try discriminate H.
    assert (Hps : NoDup (keys ps))
      by (apply (well_formed_keys ka); now apply json_derived_well_formed).
    assert (Hqs : NoDup (keys qs))
      by (apply (well_formed_keys kb); now apply json_derived_well_formed).
    apply (deepEqual_obj_spec _ _ _ _ Hps Hqs
             (json_unlike_inherited _ kb _ qs Ha Pa)) in H.
    destruct H as [Hkeys Hvals].
    apply (deepEqual_obj_spec _ _ _ _ Hqs Hps
             (json_unlike_inherited _ ka _ ps Hb Pb)). split.
    + intros k. symmetry. apply Hkeys.
    + intros k Hk. apply Hkeys in Hk.
      pose proof (get_present ka _ _ Hk) as Hin.
      rewrite Forall_forall in IH. apply (IH _ Hin); simpl.
      * now apply (json_derived_obj _ _ _ _ Ha Hin).
      * apply Hkeys in Hk. apply (get_present kb) in Hk.
        now apply (json_derived_obj _ _ _ _ Hb Hk).
      * now apply (proto_free_obj _ _ _ _ Pa Hin).
      * apply Hkeys in Hk. apply (get_present kb) in Hk.
        now apply (proto_free_obj _ _ _ _ Pb Hk).
      * apply Hvals. change k with (fst (k, get ka ps k)). now apply in_map.
Qed.

(** On JSON-derived values none of whose objects has a property named
    [__proto__], the comparison is symmetric. *)
Lemma deepEqual_sym a b :
  json_derived a = true -> json_derived b = true ->
  proto_free a = true -> proto_free b = true ->
  deepEqual a b = deepEqual b a.
Proof.
  intros Ha Hb Pa Pb.
  destruct (deepEqual a b) eqn:Hab; destruct (deepEqual b a) eqn:Hba;
    try reflexivity.
  - rewrite (deepEqual_sym_true a b Ha Hb Pa Pb Hab) in Hba. discriminate.
  - rewrite (deepEqual_sym_true b a Hb Ha Pb Pa Hba) in Hab. discriminate.
Qed.

(** ** The run of deepEqual *)

Lemma every_run_done A B (present : A -> option B)
    (cr : B -> nat -> run bool) (c : B -> nat -> bool) xs :
  (forall x y j, In x xs -> present x = Some y -> cr y j = Done (c y j)) ->
  forall i, every_run present cr xs i = Done (every present c xs i).
Proof.
  induction xs as [|x xs IH]; intros H i; simpl; [reflexivity|].
  destruct (present x) as [y|] eqn:Hx.
  - rewrite (H x y i (or_introl eq_refl) Hx). simpl.
    destruct (c y i); simpl; [|reflexivity].
    apply IH. intros z w j Hz. apply H. now right.
  - apply IH. intros z w j Hz. apply H. now right.
Qed.

Lemma height_item xs x : In (Some x) xs -> height x < height (VArr xs).
Proof.
  simpl. induction xs as [|y xs IH]; simpl; intros H; [contradiction|].
  destruct H as [->|H]; [lia|]. specialize (IH H). destruct y; lia.
Qed.

Lemma height_prop kd ps kv : In kv ps -> height (snd kv) < height (VObj kd ps).
Proof.
  simpl. induction ps as [|q ps IH]; simpl; intros H; [contradiction|].
  destruct H as [->|H]; [lia|]. specialize (IH H). lia.
Qed.

(** C6: deepEqual is total on every pair of values (all of them acyclic, being
    trees): a run with more fuel than the nesting depth of the first argument
    terminates, raises nothing, and returns the value of the function. *)
Theorem deepEqual_run_total (a b : value) (fuel : nat) :
  height a < fuel ->
  deepEqual_run fuel a b = Done (deepEqual a b).
Proof.
  revert a b. induction fuel as [|fuel IH]; intros a b Hh; [lia|].
  destruct a as [| |t|n|s|f|xs|ka ps];
    try (destruct b; simpl; try reflexivity;
         match goal with |- (if ?c then _ else _) = _ => destruct c; reflexivity end).
  - destruct b as [| |t|n|s|f|ys|kb qs]; try reflexivity.
    cbn [deepEqual_run deepEqual Object_is typeof jstype_eqb falsy negb orb
         Array_isArray andb as_array run_bind].
    destruct (Nat.eqb (List.length xs) (List.length ys)); [|reflexivity].
    cbn [negb]. apply every_run_done. intros x y j Hx Hy.
    unfold position in Hy. subst x. apply IH.
    pose proof (height_item xs y Hx). lia.
  - destruct b as [| |t|n|s|f|ys|kb qs]; try reflexivity.
    cbn [deepEqual_run deepEqual Object_is typeof jstype_eqb falsy negb orb
         Array_isArray andb as_array as_object run_bind fst snd].
    destruct (Nat.eqb (List.length (keys ps)) (List.length (keys qs)));
      [|reflexivity].
    cbn [negb]. apply every_run_done. intros kv y j Hkv Hy.
    unfold property in Hy. injection Hy as <-. apply IH.
    pose proof (height_prop ka ps kv Hkv). lia.
Qed.

Lemma deepEqual_run_total_witness :
  deepEqual_run 3
    (VObj Plain [("a", VNum (num 1)); ("b", dense [VNum (num 1); VUndefined])])
    (VObj Plain [("b", dense [VNum (num 1); VFun (Closure 7)]); ("a", VNum (num 1))])
  = Done false.
Proof.
  exact (deepEqual_run_total
           (VObj Plain [("a", VNum (num 1)); ("b", dense [VNum (num 1); VUndefined])])
           (VObj Plain [("b", dense [VNum (num 1); VFun (Closure 7)]);
                        ("a", VNum (num 1))])
           3 (le_n 3)).
Defined.

(** ** The runner *)

Section RunnerProperties.

Variable World : Type.
Variable run_body : string -> World -> behaviour World body_completion.
Variable apply : function -> list value -> World -> behaviour World (completion value).
Variable JSON_stringify : value -> stringified.
Variable String_of : value -> completion string.

Local Abbreviation serialize := (serialize JSON_stringify String_of).
Local Abbreviation serializeValue := (serializeValue JSON_stringify String_of).
Local Abbreviation logger := (logger JSON_stringify String_of).
Local Abbreviation line_of := (line_of JSON_stringify String_of).
Local Abbreviation lines_of := (lines_of JSON_stringify String_of).
Local Abbreviation answer_of := (answer_of JSON_stringify String_of).
Local Abbreviation calls_of := (calls_of JSON_stringify String_of).
Local Abbreviation error_text := (error_text String_of).
Local Abbreviation attempt := (attempt JSON_stringify String_of).
Local Abbreviation rescue := (rescue String_of).
Local Abbreviation run_case := (run_case apply JSON_stringify String_of).
Local Abbreviation run_cases := (run_cases apply JSON_stringify String_of).
Local Abbreviation runTests := (runTests apply JSON_stringify String_of).
Local Abbreviation runUserCode := (runUserCode run_body).
Local Abbreviation load_and_run :=
  (load_and_run run_body apply JSON_stringify String_of).
Local Abbreviation onmessage := (onmessage run_body apply JSON_stringify String_of).
Local Abbreviation calls_of_cases :=
  (calls_of_cases apply JSON_stringify String_of).
Local Abbreviation calls_of_request :=
  (calls_of_request run_body apply JSON_stringify String_of).
Local Abbreviation the_console := (snd (captureConsole JSON_stringify String_of)).

(** *** The log buffer *)

(** A call of a verb appends its line, or throws and leaves the buffer. *)
Lemma console_call_line (v : verb) args l :
  the_console v args l
  = match line_of args with
    | Returns line => Returns (l ++ [line])
    | Throws e => Throws e
    end.
Proof. cbn. unfold logger. now destruct (line_of args). Qed.

(** What the program does next does not depend on the buffer, and the
    buffer grows by the lines of the calls. *)
Lemma perform_buffer R (b : behaviour World R) : forall l,
  perform the_console b l
  = (fst (perform the_console b []),
     {| logs := l ++ lines_of (calls_of b);
        world := world (snd (perform the_console b [])) |}).
Proof.
  induction b as [r w|c resume IH]; intros l.
  - cbn. now rewrite app_nil_r.
  - cbn [perform calls_of]. rewrite !console_call_line.
    unfold lines_of, answer_of. cbn [flat_map].
    destruct (line_of (call_args c)) as [line|e].
    + rewrite (IH None (l ++ [line])), (IH None ([] ++ [line])).
      cbn [fst snd world]. now rewrite <- app_assoc.
    + rewrite (IH (Some e) l), (IH (Some e) []). reflexivity.
Qed.

Lemma perform_logs R (b : behaviour World R) l :
  logs (snd (perform the_console b l)) = l ++ lines_of (calls_of b).
Proof. now rewrite perform_buffer. Qed.

Lemma lines_of_app xs ys : lines_of (xs ++ ys) = lines_of xs ++ lines_of ys.
Proof. unfold lines_of. apply flat_map_app. Qed.

(** *** One turn of the loop *)

Lemma run_case_state f c tc (st : state World) :
  snd (run_case f c tc st)
  = snd (perform c (apply f (spread (case_args tc)) (world st)) (logs st)).
Proof.
  unfold run_case.
  now destruct (perform c (apply f (spread (case_args tc)) (world st)) (logs st)).
Qed.

Lemma run_case_result f c tc (st : state World) :
  fst (run_case f c tc st)
  = catch (attempt tc (fst (perform c (apply f (spread (case_args tc)) (world st))
                                    (logs st))))
          (rescue tc).
Proof.
  unfold run_case.
  now destruct (perform c (apply f (spread (case_args tc)) (world st)) (logs st)).
Qed.

Lemma rescue_name tc e r : rescue tc e = Returns r -> name r = case_name tc.
Proof.
  unfold rescue. destruct (error_text e); cbn; [|discriminate].
  intros H. injection H as <-. reflexivity.
Qed.

Lemma attempt_name tc called r :
  attempt tc called = Returns r -> name r = case_name tc.
Proof.
  unfold attempt. destruct called as [v|e]; cbn; [|discriminate].
  destruct (deepEqual v (case_expected tc)).
  - intros H. injection H as <-. reflexivity.
  - destruct (serializeValue (case_expected tc)); cbn; [|discriminate].
    destruct (serializeValue v); cbn; [|discriminate].
    intros H. injection H as <-. reflexivity.
Qed.

Lemma run_case_name f c tc (st : state World) r :
  fst (run_case f c tc st) = Returns r -> name r = case_name tc.
Proof.
  rewrite run_case_result. unfold catch.
  destruct (attempt tc _) as [r'|e] eqn:Ha.
  - intros H. injection H as <-. exact (attempt_name _ _ _ Ha).
  - apply rescue_name.
Qed.

(** A turn throws exactly when its [catch] clause does: something was
    thrown in the [try], and its conversion to a string throws. *)
Lemma run_case_throws f c tc (st : state World) e :
  fst (run_case f c tc st) = Throws e <->
  exists error,
    attempt tc (fst (perform c (apply f (spread (case_args tc)) (world st))
                             (logs st))) = Throws error
    /\ error_text error = Throws e.
Proof.
  rewrite run_case_result. unfold catch.
  destruct (attempt tc _) as [r|error].
  - split; [discriminate | intros [x [H _]]; discriminate].
  - unfold rescue. split.
    + intros H. exists error. split; [reflexivity|].
      destruct (error_text error) as [m|e']; cbn in H; [discriminate H | congruence].
    + intros [x [Hx He]]. injection Hx as <-. now rewrite He.
Qed.

(** *** The loop *)

(** The array built so far is only ever extended. *)
Lemma run_cases_acc f c cs : forall acc (st : state World),
  run_cases f c cs acc st
  = match run_cases f c cs [] st with
    | (Returns rs, st') => (Returns (acc ++ rs), st')
    | (Throws e, st') => (Throws e, st')
    end.
Proof.
  induction cs as [|tc cs IH]; intros acc st; simpl.
  - now rewrite app_nil_r.
  - destruct (run_case f c tc st) as [[r|e] st']; [|reflexivity].
    rewrite (IH (acc ++ [r])), (IH ([] ++ [r])).
    destruct (run_cases f c cs [] st') as [[rs|e] st'']; [|reflexivity].
    now rewrite <- app_assoc.
Qed.

Lemma run_cases_cons f c tc cs (st : state World) :
  run_cases f c (tc :: cs) [] st
  = match run_case f c tc st with
    | (Returns r, st') =>
        match run_cases f c cs [] st' with
        | (Returns rs, st'') => (Returns (r :: rs), st'')
        | (Throws e, st'') => (Throws e, st'')
        end
    | (Throws e, st') => (Throws e, st')
    end.
Proof.
  simpl. destruct (run_case f c tc st) as [[r|e] st']; [|reflexivity].
  now rewrite run_cases_acc.
Qed.

Lemma run_cases_app f c xs ys (st : state World) :
  run_cases f c (xs ++ ys) [] st
  = match run_cases f c xs [] st with
    | (Returns rs, st') =>
        match run_cases f c ys [] st' with
        | (Returns rs', st'') => (Returns (rs ++ rs'), st'')
        | (Throws e, st'') => (Throws e, st'')
        end
    | (Throws e, st') => (Throws e, st')
    end.
Proof.
  revert st. induction xs as [|tc xs IH]; intros st.
  - cbn [app run_cases]. now destruct (run_cases f c ys [] st) as [[rs|e] st'].
  - rewrite <- app_comm_cons, !run_cases_cons.
    destruct (run_case f c tc st) as [[r|e] st']; [|reflexivity].
    rewrite IH.
    destruct (run_cases f c xs [] st') as [[rs|e] st'']; [|reflexivity].
    now destruct (run_cases f c ys [] st'') as [[rs'|e] st3].
Qed.

Lemma run_cases_names f c cs : forall (st : state World) rs,
  fst (run_cases f c cs [] st) = Returns rs ->
  Forall2 (fun tc r => name r = case_name tc) cs rs.
Proof.
  induction cs as [|tc cs IH]; intros st rs.
  - cbn. intros H. injection H as <-. constructor.
  - rewrite run_cases_cons.
    destruct (run_case f c tc st) as [[r|e] st'] eqn:Hc; [|discriminate].
    destruct (run_cases f c cs [] st') as [[rs'|e] st''] eqn:Hr; [|discriminate].
    cbn. intros H. injection H as <-. constructor.
    + apply (run_case_name f c tc st). now rewrite Hc.
    + apply (IH st'). now rewrite Hr.
Qed.

Lemma run_cases_nth f c cs : forall (st : state World) rs k tc,
  fst (run_cases f c cs [] st) = Returns rs ->
  nth_error cs k = Some tc ->
  exists st_k r,
    nth_error rs k = Some r /\ fst (run_case f c tc st_k) = Returns r.
Proof.
  induction cs as [|tc' cs IH]; intros st rs [|k] tc Hrun H;
    try discriminate H; rewrite run_cases_cons in Hrun;
    destruct (run_case f c tc' st) as [[r|e] st'] eqn:Hc; try discriminate Hrun;
    destruct (run_cases f c cs [] st') as [[rs'|e] st''] eqn:Hr;
    try discriminate Hrun; cbn in Hrun; injection Hrun as <-; cbn in H.
  - injection H as <-. exists st, r. split; [reflexivity | now rewrite Hc].
  - apply (IH st' rs' k tc); [now rewrite Hr | assumption].
Qed.

(** When the loop throws, the cases before some case all gave their
    result, and the turn of that case threw. *)
Lemma run_cases_throws f c cs : forall (st : state World) e,
  fst (run_cases f c cs [] st) = Throws e ->
  exists before tc later rs st_k,
    cs = before ++ tc :: later
    /\ run_cases f c before [] st = (Returns rs, st_k)
    /\ fst (run_case f c tc st_k) = Throws e.
Proof.
  induction cs as [|tc cs IH]; intros st e; [discriminate|].
  rewrite run_cases_cons.
  destruct (run_case f c tc st) as [[r|e'] st'] eqn:Hc.
  - destruct (run_cases f c cs [] st') as [[rs|e''] st''] eqn:Hr; [discriminate|].
    cbn. intros H. injection H as <-.
    destruct (IH st' e'') as [before [tc' [later [rs [st_k [-> [Hb Ht]]]]]]];
      [now rewrite Hr|].
    exists (tc :: before), tc', later, (r :: rs), st_k. split; [reflexivity|].
    split; [|assumption].
    rewrite run_cases_cons, Hc, Hb. reflexivity.
  - cbn. intros H. injection H as <-.
    exists [], tc, cs, [], st. split; [reflexivity|].
    split; [reflexivity | now rewrite Hc].
Qed.

Lemma run_cases_logs f cs : forall st : state World,
  logs (snd (run_cases f the_console cs [] st))
  = logs st ++ lines_of (calls_of_cases f cs st).
Proof.
  induction cs as [|tc cs IH]; intros st.
  - cbn. now rewrite app_nil_r.
  - rewrite run_cases_cons. cbn [calls_of_cases].
    pose proof (run_case_state f the_console tc st) as Hs.
    destruct (run_case f the_console tc st) as [[r|e] st'] eqn:Hc;
      cbn [snd] in Hs; subst st'.
    + specialize (IH (snd (perform the_console
                             (apply f (spread (case_args tc)) (world st))
                             (logs st)))).
      destruct (run_cases f the_console cs [] _) as [[rs|e] st''];
        cbn [snd] in *; rewrite IH, perform_logs, lines_of_app;
        now rewrite app_assoc.
    + cbn [snd]. now rewrite perform_logs, app_nil_r.
Qed.

(** When every value converts to a string, no turn throws, and the loop
    returns. *)
Lemma run_cases_convertible f c cs :
  (forall v, exists s, String_of v = Returns s) ->
  forall st : state World, exists rs, fst (run_cases f c cs [] st) = Returns rs.
Proof.
  intros Hs st.
  destruct (fst (run_cases f c cs [] st)) as [rs|e] eqn:Hrun; [now exists rs|].
  destruct (run_cases_throws f c cs st e Hrun)
    as [before [tc [later [rs [st_k [_ [_ Ht]]]]]]].
  apply run_case_throws in Ht. destruct Ht as [error [_ Hx]].
  destruct error as [m|v]; [discriminate Hx|].
  cbn in Hx. destruct (Hs v) as [s Hv]. congruence.
Qed.



(** *** The handler, case by case on the load *)

Lemma load_logs data w :
  logs (snd (perform the_console (run_body (code data) w) []))
  = lines_of (calls_of (run_body (code data) w)).
Proof. now rewrite perform_logs. Qed.

Lemma onmessage_load_throws data w t :
  resolved (fst (perform the_console (run_body (code data) w) [])) = Throws t ->
  onmessage data w
  = (match error_text t with
     | Returns message =>
         Some (Failure message (lines_of (calls_of (run_body (code data) w))))
     | Throws _ => None
     end,
     world (snd (perform the_console (run_body (code data) w) []))).
Proof.
  intros H. unfold onmessage, load_and_run, runUserCode.
  rewrite <- load_logs. cbn [captureConsole snd world logs] in *.
  destruct (perform _ (run_body (code data) w) []) as [c st1].
  cbn [fst snd] in *. rewrite H. now destruct (error_text t).
Qed.

Lemma onmessage_not_callable data w v :
  resolved (fst (perform the_console (run_body (code data) w) [])) = Returns v ->
  is_callable v = false ->
  onmessage data w
  = (Some (Failure "solution must be a function."
                   (lines_of (calls_of (run_body (code data) w)))),
     world (snd (perform the_console (run_body (code data) w) []))).
Proof.
  intros H Hv. unfold onmessage, load_and_run, runUserCode.
  rewrite <- load_logs. cbn [captureConsole snd world logs] in *.
  destruct (perform _ (run_body (code data) w) []) as [c st1].
  cbn [fst snd] in *. rewrite H.
  destruct v; try discriminate Hv; reflexivity.
Qed.

Lemma onmessage_callable data w f :
  resolved (fst (perform the_console (run_body (code data) w) []))
  = Returns (VFun f) ->
  let ran := run_cases f the_console
               (match cases data with Some cs => cs | None => [] end) []
               (snd (perform the_console (run_body (code data) w) [])) in
  onmessage data w
  = (match fst ran with
     | Returns results => Some (Success results (logs (snd ran)))
     | Throws e =>
         match error_text e with
         | Returns message => Some (Failure message (logs (snd ran)))
         | Throws _ => None
         end
     end,
     world (snd ran)).
Proof.
  intros H ran. subst ran. unfold onmessage, load_and_run, runUserCode.
  cbn [captureConsole snd world logs] in *.
  destruct (perform _ (run_body (code data) w) []) as [c st1].
  cbn [fst snd] in *. rewrite H. cbn [runTests].
  destruct (run_cases f _ _ [] st1) as [[results|e] st2]; cbn [fst snd];
    [reflexivity|].
  now destruct (error_text e).
Qed.

(** The logs of whatever is posted are the lines of the calls of the
    request. *)
Lemma posted_logs data w response :
  fst (onmessage data w) = Some response ->
  response_logs response = lines_of (calls_of_request data w).
Proof.
  unfold calls_of_request.
  pose proof (load_logs data w) as Hl.
  destruct (perform the_console (run_body (code data) w) []) as [c st1] eqn:Hp.
  destruct (resolved c) as [v|t] eqn:H.
  - destruct (is_callable v) eqn:Hv.
    + destruct v as [| | | | |f| |]; try discriminate Hv.
      rewrite (onmessage_callable data w f) by (now rewrite Hp).
      rewrite Hp. cbn [fst snd].
      pose proof (run_cases_logs f (match cases data with
                                    | Some cs => cs
                                    | None => []
                                    end) st1) as Hr.
      cbn [snd] in Hl. rewrite Hl in Hr. rewrite lines_of_app.
      destruct (run_cases f _ _ [] st1) as [[results|e] st2]; cbn [fst snd] in *.
      * intros Hx. injection Hx as <-. exact Hr.
      * destruct (error_text e); [|discriminate].
        intros Hx. injection Hx as <-. exact Hr.
    + rewrite (onmessage_not_callable data w v);
        [|now rewrite Hp | exact Hv].
      cbn [fst]. intros Hx. injection Hx as <-. cbn [response_logs].
      destruct v; try discriminate Hv; now rewrite app_nil_r.
  - rewrite (onmessage_load_throws data w t) by (now rewrite Hp).
    cbn [fst]. destruct (error_text t); [|discriminate].
    intros Hx. injection Hx as <-. cbn [response_logs]. now rewrite app_nil_r.
Qed.


(** How the arguments of a call are rendered one by one. *)
Lemma rendered_all args rendered :
  map_completion serialize args = Returns rendered <->
  Forall2 (fun a r => serialize a = Returns r) args rendered.
Proof.
  revert rendered. induction args as [|a args IH]; intros rendered; cbn.
  - split.
    + intros H. injection H as <-. constructor.
    + intros H. inversion H. reflexivity.
  - destruct (serialize a) as [r|e] eqn:Ha; cbn.
    + destruct (map_completion serialize args) as [rs|e] eqn:Hm; cbn.
      * split.
        -- intros H. injection H as <-. constructor; [assumption|].
           now apply IH.
        -- intros H. inversion H as [|? r' ? rs' Hr Hrs]; subst.
           apply IH in Hrs. congruence.
      * split; [discriminate|].
        intros H. inversion H as [|? r' ? rs' Hr Hrs]; subst.
        apply IH in Hrs. discriminate.
    + split; [discriminate|].
      intros H. inversion H as [|? r' ? rs' Hr Hrs]; subst. congruence.
Qed.


(** C9: a request whose [cases] is null or undefined is run as one with no
    cases: with a callable entry point the response is a Success with no
    results and the console lines of the load. *)
Theorem missing_cases_run_as_empty
    (data : WorkerRequest) (w : World) (f : function) :
  cases data = None ->
  resolved (fst (perform the_console (run_body (code data) w) []))
  = Returns (VFun f) ->
  fst (onmessage data w)
  = Some (Success [] (lines_of (calls_of (run_body (code data) w)))).
Proof.
  intros Hc H. rewrite (onmessage_callable _ _ _ H). rewrite Hc.
  cbn. now rewrite load_logs.
Qed.

End RunnerProperties.

(** ** The host controller *)

Lemma trimStart_whitespace s : whitespace_only s = true -> trimStart s = EmptyString.
Proof.
  induction s as [|c s IH]; simpl; [reflexivity|].
  rewrite andb_true_iff. intros [Hc Hs]. rewrite Hc. now apply IH.
Qed.

Lemma trim_whitespace s : whitespace_only s = true -> trim s = EmptyString.
Proof. intros H. unfold trim. now rewrite trimStart_whitespace. Qed.

Lemma trimStart_app l s :
  whitespace_only l = true -> trimStart (l ++ s) = trimStart s.
Proof.
  induction l as [|c l IH]; simpl; [reflexivity|].
  rewrite andb_true_iff. intros [Hc Hl]. rewrite Hc. now apply IH.
Qed.

Lemma trimEnd_whitespace r : whitespace_only r = true -> trimEnd r = EmptyString.
Proof.
  induction r as [|c r IH]; simpl; [reflexivity|].
  rewrite andb_true_iff. intros [Hc Hr]. now rewrite (IH Hr), Hc.
Qed.

Lemma trimEnd_app t r :
  whitespace_only r = true -> trimEnd (t ++ r) = trimEnd t.
Proof.
  intros Hr. induction t as [|c t IH]; simpl.
  - now apply trimEnd_whitespace.
  - now rewrite IH.
Qed.

Lemma trimEnd_last t d :
  last_char t = Some d -> is_whitespace d = false -> trimEnd t = t.
Proof.
  induction t as [|c t IH]; simpl; [discriminate|].
  destruct t as [|c' t'].
  - intros H Hd. injection H as <-. simpl. now rewrite Hd.
  - intros H Hd. rewrite (IH H Hd). reflexivity.
Qed.

(** [trim] takes the white space off both ends and nothing else. *)
Lemma trim_padded l t r :
  whitespace_only l = true -> whitespace_only r = true -> tight t = true ->
  trim (l ++ t ++ r) = t.
Proof.
  intros Hl Hr Ht. unfold trim. rewrite trimStart_app by assumption.
  destruct t as [|c t'].
  - simpl. rewrite (trimStart_whitespace _ Hr). reflexivity.
  - unfold tight in Ht. cbn [first_char] in Ht.
    destruct (last_char (String c t')) as [d|] eqn:Hd.
    + rewrite andb_true_iff, !negb_true_iff in Ht. destruct Ht as [Hc Hd'].
      cbn [append trimStart]. rewrite Hc.
      change (String c (t' ++ r)%string) with (String c t' ++ r)%string.
      rewrite trimEnd_app by assumption. exact (trimEnd_last _ _ Hd Hd').
    + exfalso. clear -Hd. revert c Hd.
      induction t' as [|c' t' IH]; intros c; simpl; [discriminate|].
      apply IH.
Qed.

Lemma trimStart_split s :
  exists l, s = (l ++ trimStart s)%string /\ whitespace_only l = true
            /\ match first_char (trimStart s) with
               | Some c => is_whitespace c = false
               | None => True
               end.
Proof.
  induction s as [|c s [l [Hs [Hl Hf]]]]; simpl.
  - exists EmptyString. now repeat split.
  - destruct (is_whitespace c) eqn:Hc.
    + exists (String c l). simpl. rewrite Hc, Hl. repeat split; [|assumption].
      now rewrite <- Hs.
    + exists EmptyString. simpl. now repeat split.
Qed.

Lemma trimEnd_split s :
  exists r, s = (trimEnd s ++ r)%string /\ whitespace_only r = true
            /\ match last_char (trimEnd s) with
               | Some d => is_whitespace d = false
               | None => True
               end
            /\ (forall c, first_char s = Some c -> is_whitespace c = false ->
                          first_char (trimEnd s) = Some c).
Proof.
  induction s as [|c s [r [Hs [Hr [Hlast Hfirst]]]]]; simpl.
  - exists EmptyString. repeat split. discriminate.
  - destruct (trimEnd s) as [|c' t] eqn:Ht.
    + simpl in Hs. destruct (is_whitespace c) eqn:Hc.
      * exists (String c r). simpl. rewrite Hc, Hr.
        split; [now rewrite <- Hs|]. split; [reflexivity|]. split; [exact I|].
        intros x Hx Hw. injection Hx as <-. congruence.
      * exists r. simpl. rewrite Hc.
        split; [now rewrite <- Hs|]. split; [assumption|].
        split; [reflexivity|]. intros x Hx _. exact Hx.
    + exists r. split; [cbn [append]; f_equal; exact Hs|].
      split; [assumption|]. split; [exact Hlast|].
      intros x Hx _. exact Hx.
Qed.

Lemma trim_split raw :
  exists l r, raw = (l ++ trim raw ++ r)%string
              /\ whitespace_only l = true /\ whitespace_only r = true
              /\ tight (trim raw) = true.
Proof.
  destruct (trimStart_split raw) as [l [Hraw [Hl Hf]]].
  destruct (trimEnd_split (trimStart raw)) as [r [Hs [Hr [Hlast Hfirst]]]].
  exists l, r. unfold trim. split; [now rewrite <- Hs|].
  split; [assumption|]. split; [assumption|].
  unfold tight.
  destruct (last_char (trimEnd (trimStart raw))) as [d|] eqn:Hd;
    [|now destruct (first_char (trimEnd (trimStart raw)))].
  destruct (first_char (trimEnd (trimStart raw))) as [c|] eqn:Hc; [|reflexivity].
  rewrite Hlast, andb_true_r, negb_true_iff.
  destruct (first_char (trimStart raw)) as [c0|] eqn:Hc0.
  - pose proof (Hfirst c0 eq_refl Hf) as Hx. now injection Hx as ->.
  - destruct (trimStart raw); [discriminate Hd | discriminate Hc0].
Qed.

Section HostProperties.

Variable JSON_parse : string -> option value.

Local Abbreviation parseValue := (parseValue JSON_parse).
Local Abbreviation parsed_case := (parsed_case JSON_parse).
Local Abbreviation parsed_cases := (parsed_cases JSON_parse).
Local Abbreviation handleRun := (handleRun JSON_parse).

Lemma parseValue_blank raw : whitespace_only raw = true -> parseValue raw = VUndefined.
Proof. intros H. unfold parseValue. now rewrite trim_whitespace. Qed.

Lemma parsed_cases_nth drafts : forall k i,
  nth_error (parsed_cases k drafts) i
  = option_map (parsed_case (k + i)) (nth_error drafts i).
Proof.
  induction drafts as [|d drafts IH]; intros k [|i]; simpl; try reflexivity.
  - now rewrite Nat.add_0_r.
  - rewrite IH. now replace (S k + i) with (k + S i) by lia.
Qed.

Lemma parsed_cases_length drafts : forall k,
  List.length (parsed_cases k drafts) = List.length drafts.
Proof.
  induction drafts as [|d ds IH]; intros k; simpl; [reflexivity | now rewrite IH].
Qed.

Lemma case_args_parsed index draft :
  case_args (parsed_case index draft)
  = argument_vector (parseValue (args draft)).
Proof. reflexivity. Qed.

(** C8, amended: a text is taken without the white space at its two ends
    (every text is such a core between two runs of white space): an empty
    core gives [undefined], a core that is JSON gives its value, any other
    core gives itself as a string.  The argument vector of a draft is the
    parsed args when that is an array, no argument when it is [undefined],
    and that one value otherwise; the expected value is the parsed expected
    text, never spread.  The request holds the cases of the drafts in their
    order. *)
Theorem drafts_become_cases (code : string) (drafts : list TestCaseDraft) :
  (forall l t r,
      whitespace_only l = true -> whitespace_only r = true -> tight t = true ->
      parseValue (l ++ t ++ r)
      = if is_empty t then VUndefined
        else match JSON_parse t with
             | Some v => v
             | None => VStr t
             end)
  /\ (forall raw, exists l t r,
        raw = (l ++ t ++ r)%string
        /\ whitespace_only l = true /\ whitespace_only r = true
        /\ tight t = true)
  /\ (forall index draft xs, parseValue (args draft) = VArr xs ->
        case_args (parsed_case index draft) = xs)
  /\ (forall index draft, parseValue (args draft) = VUndefined ->
        case_args (parsed_case index draft) = [])
  /\ (forall index draft,
        Array_isArray (parseValue (args draft)) = false ->
        parseValue (args draft) <> VUndefined ->
        case_args (parsed_case index draft) = [Some (parseValue (args draft))])
  /\ (forall index draft,
        case_expected (parsed_case index draft)
        = parseValue (expected_text draft))
  /\ exists cs,
       handleRun true code drafts = Some {| code := code; cases := Some cs |}
       /\ List.length cs = List.length drafts
       /\ forall index draft, nth_error drafts index = Some draft ->
                              nth_error cs index = Some (parsed_case index draft).
Proof.
  split.
  { intros l t r Hl Hr Ht. unfold parseValue.
    now rewrite (trim_padded l t r Hl Hr Ht). }
  split.
  { intros raw. destruct (trim_split raw) as [l [r H]]. now exists l, (trim raw), r. }
  split. { intros index draft xs H. rewrite case_args_parsed. now rewrite H. }
  split. { intros index draft H. rewrite case_args_parsed. now rewrite H. }
  split.
  { intros index draft Ha Hu. rewrite case_args_parsed.
    destruct (parseValue (args draft)); try reflexivity;
      [now contradiction Hu | discriminate Ha]. }
  split. { reflexivity. }
  exists (parsed_cases 0 drafts).
  split. { reflexivity. }
  split. { apply parsed_cases_length. }
  intros index draft H. now rewrite parsed_cases_nth, H.
Qed.

End HostProperties.

(** ** From a draft to its verdict *)

Section EndToEnd.

Variable World : Type.
Variable apply : function -> list value -> World -> behaviour World (completion value).
Variable JSON_stringify : value -> stringified.
Variable String_of : value -> completion string.
Variable JSON_parse : string -> option value.

Local Abbreviation run_case := (run_case apply JSON_stringify String_of).
Local Abbreviation serializeValue := (serializeValue JSON_stringify String_of).
Local Abbreviation error_text := (error_text String_of).
Local Abbreviation attempt := (attempt JSON_stringify String_of).
Local Abbreviation rescue := (rescue String_of).
Local Abbreviation parsed_case := (parsed_case JSON_parse).

Lemma attempt_pass tc called r :
  attempt tc called = Returns r ->
  (pass r = true <->
   exists v, called = Returns v /\ deepEqual v (case_expected tc) = true).
Proof.
  unfold attempt. destruct called as [v|e]; cbn; [|discriminate].
  destruct (deepEqual v (case_expected tc)) eqn:E.
  - intros H. injection H as <-. cbn. split; [|reflexivity].
    intros _. now exists v.
  - destruct (serializeValue (case_expected tc)); cbn; [|discriminate].
    destruct (serializeValue v); cbn; [|discriminate].
    intros H. injection H as <-. cbn. split; [discriminate|].
    intros [v' [Hv He]]. injection Hv as <-. congruence.
Qed.

Lemma rescue_fails tc e r : rescue tc e = Returns r -> pass r = false.
Proof.
  unfold rescue. destruct (error_text e); cbn; [|discriminate].
  intros H. now injection H as <-.
Qed.

(** A turn gives a passing result exactly when the call returns a value
    that [deepEqual] accepts. *)
Lemma run_case_pass f c tc (st : state World) :
  (exists r, fst (run_case f c tc st) = Returns r /\ pass r = true) <->
  exists v, fst (perform c (apply f (spread (case_args tc)) (world st)) (logs st))
            = Returns v
            /\ deepEqual v (case_expected tc) = true.
Proof.
  rewrite (run_case_result World apply JSON_stringify String_of).
  set (called := fst (perform c _ _)). unfold catch.
  destruct (attempt tc called) as [r|e] eqn:Ha.
  - pose proof (attempt_pass tc called r Ha) as Hp. split.
    + intros [r' [Hr Hpass]]. injection Hr as <-. now apply Hp.
    + intros H. exists r. split; [reflexivity | now apply Hp].
  - split.
    + intros [r [Hr Hpass]]. now rewrite (rescue_fails _ _ _ Hr) in Hpass.
    + intros [v [Hv He]]. exfalso. unfold attempt in Ha.
      rewrite Hv in Ha. cbn in Ha. rewrite He in Ha. discriminate.
Qed.

(** A turn whose call returns a value that [deepEqual] rejects: the
    mismatch with the two texts, or, when a text cannot be had, what the
    [catch] makes of the exception. *)
Lemma run_case_mismatch f c tc (st : state World) v :
  fst (perform c (apply f (spread (case_args tc)) (world st)) (logs st))
  = Returns v ->
  deepEqual v (case_expected tc) = false ->
  fst (run_case f c tc st)
  = match serializeValue (case_expected tc) with
    | Throws e => rescue tc e
    | Returns expectedText =>
        match serializeValue v with
        | Throws e => rescue tc e
        | Returns actualText =>
            Returns {| name := case_name tc; pass := false;
                       error := Some "Output mismatch.";
                       expected := Present expectedText;
                       actual := Present actualText |}
        end
    end.
Proof.
  intros Hv He. rewrite (run_case_result World apply JSON_stringify String_of).
  rewrite Hv. unfold attempt. cbn. rewrite He.
  destruct (serializeValue (case_expected tc)); cbn; [|reflexivity].
  now destruct (serializeValue v).
Qed.


End EndToEnd.

(** ** On the sample engine *)

(** C1: an object whose only property holds [undefined] compares equal to
    an object with one property of another name, so the comparison does not
    decide equality of the key sets; a program returning the former passes a
    case that expects the latter. *)
Theorem deepEqual_accepts_other_key :
  deepEqual (VObj Plain [("x", VUndefined)]) (VObj Plain [("y", VNum (num 1))])
  = true
  /\ keys [("x", VUndefined)] = ["x"]
  /\ keys [("y", VNum (num 1))] = ["y"]
  /\ deepEqual (get Plain [("x", VUndefined)] "y")
               (get Plain [("y", VNum (num 1))] "y") = false
  /\ fst (Sample.onmessage
            {| code := Sample.sparse_text;
               cases := Some [{| case_name := "Case 1"; case_args := [];
                                 case_expected := VObj Plain [("y", VNum (num 1))] |}] |}
            0)
     = Some (Success [{| name := "Case 1"; pass := true; error := None;
                         expected := Absent; actual := Absent |}] []).
Proof. repeat split. Qed.

(** C5: on two JSON-derived values the comparison gives [true] one way and
    [false] the other.  The first object has an own property [__proto__]
    holding an empty object; the second has none, and the read of that name
    on it finds [Object.prototype], an object without enumerable
    properties, which the empty object equals.  A program returning the
    first passes a case that expects the second. *)
Theorem deepEqual_asymmetric_on_inherited_name :
  let a := VObj Plain [("__proto__", VObj Plain [])] in
  let b := VObj Plain [("y", VNum (num 1))] in
  json_derived a = true /\ json_derived b = true
  /\ deepEqual a a = true /\ deepEqual b b = true
  /\ deepEqual a b = true /\ deepEqual b a = false
  /\ get Plain [("y", VNum (num 1))] "__proto__" = VObj ObjectPrototype []
  /\ fst (Sample.onmessage
            {| code := Sample.inherit_text;
               cases := Some [{| case_name := "Case 1"; case_args := [];
                                 case_expected := b |}] |}
            0)
     = Some (Success [{| name := "Case 1"; pass := true; error := None;
                         expected := Absent; actual := Absent |}] []).
Proof. repeat split. Qed.

(** The order of the keys does not matter (scenario 5). *)
Example deepEqual_key_order :
  deepEqual (VObj Plain [("a", VNum (num 1));
                         ("b", dense [VNum (num 1); VNum (num 2)])])
            (VObj Plain [("b", dense [VNum (num 1); VNum (num 2)]);
                         ("a", VNum (num 1))])
  = true.
Proof. reflexivity. Qed.

(** An array never equals a mapping: [equal([1,2], {0:1,1:2}) = false]. *)
Example deepEqual_array_mapping :
  deepEqual (dense [VNum (num 1); VNum (num 2)])
            (VObj Plain [("0", VNum (num 1)); ("1", VNum (num 2))]) = false.
Proof. reflexivity. Qed.

(** NaN equals NaN and the two zeros differ. *)
Example deepEqual_numbers :
  deepEqual (VNum S754_nan) (VNum S754_nan) = true
  /\ deepEqual (VNum (S754_zero false)) (VNum (S754_zero true)) = false.
Proof. split; reflexivity. Qed.

(** A hole is passed over: [[, 1]] equals [[2, 1]], though not the other
    way round. *)
Example deepEqual_hole :
  deepEqual (VArr [None; Some (VNum (num 1))]) (dense [VNum (num 2); VNum (num 1)])
  = true
  /\ deepEqual (dense [VNum (num 2); VNum (num 1)]) (VArr [None; Some (VNum (num 1))])
     = false.
Proof. split; reflexivity. Qed.

(** Scenario 1 and the mismatch of scenario 2, on [Math.sqrt]. *)
Example scenario_sqrt :
  fst (Sample.onmessage
         {| code := Sample.sqrt_text;
            cases := Some [{| case_name := "Case 1 (9)";
                              case_args := [Some (VNum (num 9))];
                              case_expected := VNum (num 3) |};
                           {| case_name := "Case 2 (16)";
                              case_args := [Some (VNum (num 16))];
                              case_expected := VNum (num 5) |}] |} 0)
  = Some (Success [{| name := "Case 1 (9)"; pass := true; error := None;
                      expected := Absent; actual := Absent |};
                   {| name := "Case 2 (16)"; pass := false;
                      error := Some "Output mismatch.";
                      expected := Present (Some "5");
                      actual := Present (Some "4") |}] []).
Proof. vm_compute. reflexivity. Qed.

(** Scenario 3: the console line of the call is in the logs. *)
Example scenario_hi :
  fst (Sample.onmessage
         {| code := Sample.hi_text;
            cases := Some [{| case_name := "Case 1"; case_args := [];
                              case_expected := VNum (num 1) |}] |} 0)
  = Some (Success [{| name := "Case 1"; pass := true; error := None;
                      expected := Absent; actual := Absent |}] ["hi"]).
Proof. vm_compute. reflexivity. Qed.

(** Scenario 4: a text that does not parse. *)
Example scenario_invalid :
  fst (Sample.onmessage {| code := Sample.invalid_text; cases := Some [] |} 0)
  = Some (Failure "Unexpected token ';'" []).
Proof. vm_compute. reflexivity. Qed.

(** A text that throws, while loading, a value that has no string
    conversion: the handler posts nothing. *)
Example scenario_no_response :
  fst (Sample.onmessage {| code := Sample.bare_load_text; cases := Some [] |} 0)
  = None.
Proof. vm_compute. reflexivity. Qed.





(** C8 as stated fails: an args text that starts with a no-break space is
    not JSON as it stands, so the rule as worded keeps it, trimmed, as the
    string "9"; the page trims first and passes the number 9. *)
Lemma trimmed_before_parsing :
  let raw := String (ascii_of_nat 160) "9" in
  Sample.JSON_parse raw = None
  /\ argument_vector (parse_as_worded Sample.JSON_parse raw) = [Some (VStr "9")]
  /\ case_args (parsed_case Sample.JSON_parse 0
                  {| id := "case-1"; args := raw; expected_text := "3" |})
     = [Some (VNum (num 9))].
Proof. repeat split. Qed.



Lemma missing_cases_run_as_empty_witness :
  fst (Sample.onmessage {| code := Sample.ready_text; cases := None |} 0)
  = Some (Success [] ["ready [1,2]"]).
Proof.
  exact (missing_cases_run_as_empty
           nat Sample.run_body Sample.apply Sample.JSON_stringify Sample.String_of
           {| code := Sample.ready_text; cases := None |} 0 (Closure 1)
           eq_refl eq_refl).
Defined.


(** Three drafts and the request they become: a number, an empty draft, and
    an array against a text that is not JSON. *)
Example drafts_sample :
  handleRun Sample.JSON_parse true Sample.sqrt_text
    [{| id := "case-1"; args := " 9 "; expected_text := "3" |};
     {| id := "case-2"; args := "  "; expected_text := " " |};
     {| id := "case-3"; args := "[1, 2]"; expected_text := " hello " |}]
  = Some {| code := Sample.sqrt_text;
            cases := Some
              [{| case_name := "Case 1 ( 9 )"; case_args := [Some (VNum (num 9))];
                  case_expected := VNum (num 3) |};
               {| case_name := "Case 2"; case_args := [];
                  case_expected := VUndefined |};
               {| case_name := "Case 3 ([1, 2])";
                  case_args := [Some (VNum (num 1)); Some (VNum (num 2))];
                  case_expected := VStr "hello" |}] |}.
Proof. vm_compute. reflexivity. Qed.

(** A program with a counter: the second call throws a string, and the third
    call still sees the count the second one left. *)
Example scenario_counter :
  Sample.onmessage
    {| code := Sample.counter_text;
       cases := Some [{| case_name := "Case 1"; case_args := [];
                         case_expected := VNum (num 1) |};
                      {| case_name := "Case 2"; case_args := [];
                         case_expected := VNum (num 2) |};
                      {| case_name := "Case 3"; case_args := [];
                         case_expected := VNum (num 3) |}] |} 0
  = (Some (Success [{| name := "Case 1"; pass := true; error := None;
                       expected := Absent; actual := Absent |};
                    {| name := "Case 2"; pass := false; error := Some "second";
                       expected := Absent; actual := Absent |};
                    {| name := "Case 3"; pass := true; error := None;
                       expected := Absent; actual := Absent |}] []),
     3).
Proof. vm_compute. reflexivity. Qed.

(** A text with no entry point: the console line of the load is kept. *)
Example scenario_no_entry :
  fst (Sample.onmessage {| code := Sample.no_entry_text; cases := Some [] |} 0)
  = Some (Failure "solution must be a function." ["no entry point"]).
Proof. vm_compute. reflexivity. Qed.

Example trim_sample :
  trim (String (ascii_of_nat 160) "  a b " ++ String (ascii_of_nat 9) EmptyString)%string
  = "a b".
Proof. reflexivity. Qed.

(** * More properties *)

(** ** Deep equality as a relation *)

(** A position of the first array against the same position of the
    second: a hole of the first is passed over, a hole of the second reads
    as [undefined]. *)
Lemma every_at_index_cons (R : value -> value -> bool) y ys xs : forall k,
  every position (fun x i => R x (at_index (y :: ys) i)) xs (S k)
  = every position (fun x i => R x (at_index ys i)) xs k.
Proof.
  induction xs as [|x xs IH]; intros k; simpl; [reflexivity|].
  now rewrite IH.
Qed.

Lemma every_at_index_Forall2 (R : value -> value -> bool) xs : forall ys,
  List.length xs = List.length ys ->
  (every position (fun x i => R x (at_index ys i)) xs 0 = true
   <-> Forall2 (fun x y => match x with
                           | Some u => R u (item_value y) = true
                           | None => True
                           end) xs ys).
Proof.
  induction xs as [|x xs IH]; intros [|y ys] Hlen; try discriminate Hlen.
  - simpl. split; [constructor | reflexivity].
  - simpl in Hlen. injection Hlen as Hlen.
    cbn [every]. unfold position at 1. destruct x as [u|].
    + rewrite every_at_index_cons, andb_true_iff, (IH ys Hlen).
      unfold at_index at 1. simpl. split.
      * intros [H1 H2]. now constructor.
      * intros H. inversion H; subst. now split.
    + rewrite every_at_index_cons, (IH ys Hlen). split.
      * intros H. now constructor.
      * intros H. now inversion H; subst.
Qed.

Lemma deepEqual_arr_Forall2 xs ys :
  deepEqual (VArr xs) (VArr ys) = true
  <-> Forall2 (fun x y => match x with
                          | Some u => deepEqual u (item_value y) = true
                          | None => True
                          end) xs ys.
Proof.
  rewrite deepEqual_arr, andb_true_iff, Nat.eqb_eq. split.
  - intros [Hlen H]. now apply every_at_index_Forall2.
  - intros H. pose proof (Forall2_length H) as Hlen. split; [assumption|].
    now apply every_at_index_Forall2.
Qed.

Lemma object_free_well_formed v : object_free v = true -> well_formed v = true.
Proof.
  induction v as [| | | | | |xs IH|kd ps IH] using value_ind; simpl;
    try reflexivity; try discriminate.
  rewrite !forallb_forall. rewrite Forall_forall in IH.
  intros H [x|] Hin; [|reflexivity]. apply (IH _ Hin). exact (H _ Hin).
Qed.

Lemma Forall2_impl_In (A B : Type) (R S : A -> B -> Prop) xs ys :
  Forall2 R xs ys ->
  (forall x y, In x xs -> In y ys -> R x y -> S x y) ->
  Forall2 S xs ys.
Proof.
  induction 1 as [|x y xs ys Hxy Hrest IH]; intros H; constructor.
  - apply H; try assumption; now left.
  - apply IH. intros x' y' Hx Hy. apply H; now right.
Qed.

Lemma Forall2_trans_In (A : Type) (R : A -> A -> Prop) xs : forall ys zs,
  Forall2 R xs ys -> Forall2 R ys zs ->
  (forall x y z, In x xs -> In y ys -> In z zs -> R x y -> R y z -> R x z) ->
  Forall2 R xs zs.
Proof.
  induction xs as [|x xs IH]; intros ys zs Hxy Hyz H;
    inversion Hxy as [|? y ? ys' Hh Ht]; subst;
    inversion Hyz as [|? z ? zs' Hh' Ht']; subst; constructor.
  - apply (H x y z); try assumption; now left.
  - apply (IH ys' zs' Ht Ht'). intros x' y' z' Hx Hy Hz.
    apply H; now right.
Qed.

Lemma Forall2_eq_list (A : Type) (xs ys : list A) : Forall2 eq xs ys -> xs = ys.
Proof. induction 1; congruence. Qed.

Lemma hole_free_arr xs x :
  hole_free (VArr xs) = true -> In x xs ->
  exists y, x = Some y /\ hole_free y = true.
Proof.
  simpl. intros H Hin. rewrite forallb_forall in H. specialize (H _ Hin).
  destruct x as [y|]; [now exists y | discriminate].
Qed.

Lemma object_free_arr xs x :
  object_free (VArr xs) = true -> In (Some x) xs -> object_free x = true.
Proof.
  simpl. intros H Hin. rewrite forallb_forall in H. exact (H _ Hin).
Qed.

(** On arrays without holes, an equality that holds position by position
    under [deepEqual] is an equality of the arrays as soon as [deepEqual]
    is equality on the items. *)
Lemma deepEqual_items_eq xs ys :
  hole_free (VArr xs) = true -> hole_free (VArr ys) = true ->
  deepEqual (VArr xs) (VArr ys) = true ->
  (forall x y, In (Some x) xs -> In (Some y) ys ->
               hole_free x = true -> hole_free y = true ->
               deepEqual x y = true -> x = y) ->
  xs = ys.
Proof.
  intros Hx Hy H Heq. apply deepEqual_arr_Forall2 in H.
  apply Forall2_eq_list. apply (Forall2_impl_In _ _ _ _ _ _ H).
  intros x y Hinx Hiny Hxy.
  destruct (hole_free_arr _ _ Hx Hinx) as [u [-> Hu]].
  destruct (hole_free_arr _ _ Hy Hiny) as [v [-> Hv]].
  f_equal. now apply Heq.
Qed.

Lemma deepEqual_eq_left a :
  forall b, object_free a = true -> hole_free a = true -> hole_free b = true ->
            deepEqual a b = true -> a = b.
Proof.
  induction a as [| |t|n|s|f|xs IH|kd ps IH] using value_ind;
    intros b Ha Hha Hhb H;
    try (rewrite deepEqual_primitive_l in H by reflexivity;
         now apply Object_is_eq).
  - destruct b as [| | | | | |ys|kb qs]; try discriminate H.
    f_equal. apply (deepEqual_items_eq xs ys Hha Hhb H).
    intros x y Hx Hy Hhx Hhy Hxy. rewrite Forall_forall in IH.
    apply (IH _ Hx y); try assumption.
    exact (object_free_arr _ _ Ha Hx).
  - discriminate Ha.
Qed.

Lemma deepEqual_eq_right a :
  forall b, object_free b = true -> hole_free a = true -> hole_free b = true ->
            deepEqual a b = true -> a = b.
Proof.
  induction a as [| |t|n|s|f|xs IH|kd ps IH] using value_ind;
    intros b Hb Hha Hhb H;
    try (rewrite deepEqual_primitive_l in H by reflexivity;
         now apply Object_is_eq).
  - destruct b as [| | | | | |ys|kb qs]; try discriminate H.
    f_equal. apply (deepEqual_items_eq xs ys Hha Hhb H).
    intros x y Hx Hy Hhx Hhy Hxy. rewrite Forall_forall in IH.
    apply (IH _ Hx y); try assumption.
    exact (object_free_arr _ _ Hb Hy).
  - destruct b as [| | | | | |ys|kb qs]; try discriminate H. discriminate Hb.
Qed.

(** X1: when neither value has a hole in an array and one of the two holds
    no object (it is a primitive, or arrays of such, at any depth),
    deepEqual is equality: no coercion between types, NaN equal to itself,
    the two zeros apart, arrays equal only position by position. *)
Theorem deepEqual_is_equality_without_objects (a b : value) :
  hole_free a = true -> hole_free b = true ->
  object_free a = true \/ object_free b = true ->
  (deepEqual a b = true <-> a = b).
Proof.
  intros Hha Hhb H. split.
  - destruct H as [H|H];
      [now apply deepEqual_eq_left | now apply deepEqual_eq_right].
  - intros <-. apply deepEqual_refl. apply object_free_well_formed.
    now destruct H.
Qed.

Lemma deepEqual_is_equality_without_objects_witness :
  (deepEqual (dense [VNum (num 1); VStr "1"]) (dense [VNum (num 1); VNum (num 1)])
   = true
   <-> dense [VNum (num 1); VStr "1"] = dense [VNum (num 1); VNum (num 1)]).
Proof.
  exact (deepEqual_is_equality_without_objects
           (dense [VNum (num 1); VStr "1"]) (dense [VNum (num 1); VNum (num 1)])
           eq_refl eq_refl (or_introl eq_refl)).
Defined.

(** ** Transitivity *)

(** X2: on JSON-derived values none of whose objects has a property named
    [__proto__], deepEqual is transitive (with reflexivity and symmetry, an
    equivalence on these values: an output equal to one expectation is
    equal to every expectation equal to that one). *)
Theorem deepEqual_transitive (a b c : value) :
  json_derived a = true -> json_derived b = true -> json_derived c = true ->
  proto_free a = true -> proto_free b = true ->
  deepEqual a b = true -> deepEqual b c = true -> deepEqual a c = true.
Proof.
  revert b c.
  induction a as [| |t|n|s|f|xs IH|ka ps IH] using value_ind;
    intros b c Ha Hb Hc Pa Pb Hab Hbc;
    try (rewrite deepEqual_primitive_l in Hab by reflexivity;
         apply Object_is_eq in Hab; now subst b).
  - destruct b as [| | | | | |ys|kb qs]; try discriminate Hab.
    destruct c as [| | | | | |zs|kc rs]; try discriminate Hbc.
    apply deepEqual_arr_Forall2 in Hab, Hbc. apply deepEqual_arr_Forall2.
    rewrite Forall_forall in IH.
    apply (Forall2_trans_In _ _ xs ys zs Hab Hbc).
    intros x y z Hx Hy Hz Hxy Hyz.
    destruct (json_derived_arr _ _ Ha Hx) as [u [-> Hu]].
    destruct (json_derived_arr _ _ Hb Hy) as [v [-> Hv]].
    destruct (json_derived_arr _ _ Hc Hz) as [w [-> Hw]].
    cbn [item_value] in *.
    exact (IH _ Hx v w Hu Hv Hw (proto_free_arr _ _ Pa Hx)
              (proto_free_arr _ _ Pb Hy) Hxy Hyz).
  - destruct b as [| | | | | |ys|kb qs]; try discriminate Hab.
    destruct c as [| | | | | |zs|kc rs]; try discriminate Hbc.
    assert (Hps : NoDup (keys ps))
      by (apply (well_formed_keys ka); now apply json_derived_well_formed).
    assert (Hqs : NoDup (keys qs))
      by (apply (well_formed_keys kb); now apply json_derived_well_formed).
    assert (Hrs : NoDup (keys rs))
      by (apply (well_formed_keys kc); now apply json_derived_well_formed).
    apply (deepEqual_obj_spec _ _ _ _ Hps Hqs
             (json_unlike_inherited _ kb _ qs Ha Pa)) in Hab.
    apply (deepEqual_obj_spec _ _ _ _ Hqs Hrs
             (json_unlike_inherited _ kc _ rs Hb Pb)) in Hbc.
    destruct Hab as [Kab Vab], Hbc as [Kbc Vbc].
    apply (deepEqual_obj_spec _ _ _ _ Hps Hrs
             (json_unlike_inherited _ kc _ rs Ha Pa)). split.
    + intros k. now rewrite Kab.
    + intros k Hk.
      pose proof (get_present ka _ _ Hk) as Hin.
      pose proof (proj1 (Kab k) Hk) as Hkq.
      pose proof (proj1 (Kbc k) Hkq) as Hkr.
      rewrite Forall_forall in IH.
      apply (IH _ Hin (get kb qs k) (get kc rs k)); simpl.
      * now apply (json_derived_obj _ _ _ _ Ha Hin).
      * apply (json_derived_obj _ _ _ _ Hb (get_present kb _ _ Hkq)).
      * apply (json_derived_obj _ _ _ _ Hc (get_present kc _ _ Hkr)).
      * now apply (proto_free_obj _ _ _ _ Pa Hin).
      * apply (proto_free_obj _ _ _ _ Pb (get_present kb _ _ Hkq)).
      * now apply Vab.
      * now apply Vbc.
Qed.

Lemma deepEqual_transitive_witness :
  deepEqual (VObj Plain [("a", VNum (num 1)); ("b", dense [VNull])])
            (VObj Plain [("a", VNum (num 1)); ("b", dense [VNull])]) = true.
Proof.
  exact (deepEqual_transitive
           (VObj Plain [("a", VNum (num 1)); ("b", dense [VNull])])
           (VObj Plain [("b", dense [VNull]); ("a", VNum (num 1))])
           (VObj Plain [("a", VNum (num 1)); ("b", dense [VNull])])
           eq_refl eq_refl eq_refl eq_refl eq_refl eq_refl eq_refl).
Defined.

(** ** The order of the properties *)

Lemma forallb_Permutation (A : Type) (f : A -> bool) xs ys :
  Permutation xs ys -> forallb f xs = forallb f ys.
Proof.
  induction 1 as [|x xs ys _ IH|x y xs|xs ys zs _ IH1 _ IH2]; simpl.
  - reflexivity.
  - now rewrite IH.
  - now rewrite !andb_assoc, (andb_comm (f y)).
  - now rewrite IH1.
Qed.

Lemma forallb_pointwise (A : Type) (f g : A -> bool) xs :
  (forall x, f x = g x) -> forallb f xs = forallb g xs.
Proof.
  intros H. induction xs as [|x xs IH]; simpl; [reflexivity|].
  now rewrite H, IH.
Qed.

Lemma get_Permutation kd qs qs' k :
  NoDup (keys qs) -> Permutation qs qs' -> get kd qs k = get kd qs' k.
Proof.
  intros Hnd Hp.
  assert (Hnd' : NoDup (keys qs')).
  { apply (Permutation_NoDup (l := keys qs)); [|assumption].
    now apply Permutation_map. }
  destruct (in_dec string_dec k (keys qs)) as [Hin|Hout].
  - apply (get_present kd) in Hin. symmetry. apply (get_In _ _ _ _ Hnd').
    now apply (Permutation_in _ Hp).
  - rewrite (get_absent _ _ _ Hout). symmetry. apply get_absent.
    intros Hin. apply Hout.
    apply (Permutation_in _ (Permutation_sym (Permutation_map fst Hp)) Hin).
Qed.

(** X3: listing the properties of either object in another order never
    changes the verdict, whatever the values are. *)
Theorem deepEqual_ignores_key_order
    (ka kb : kind) (ps ps' qs qs' : list (string * value)) :
  Permutation ps ps' -> Permutation qs qs' -> NoDup (keys qs) ->
  deepEqual (VObj ka ps) (VObj kb qs) = deepEqual (VObj ka ps') (VObj kb qs').
Proof.
  intros Hp Hq Hnd. rewrite !deepEqual_obj.
  unfold keys. rewrite !length_map.
  rewrite (Permutation_length Hp), (Permutation_length Hq). f_equal.
  rewrite (forallb_Permutation _ _ _ _ Hp).
  apply forallb_pointwise. intros [k v]. simpl.
  now rewrite (get_Permutation kb qs qs' k Hnd Hq).
Qed.

Lemma deepEqual_ignores_key_order_witness :
  deepEqual (VObj Plain [("a", VNum (num 1)); ("b", VUndefined)])
            (VObj Plain [("b", VUndefined); ("a", VNum (num 1))])
  = deepEqual (VObj Plain [("b", VUndefined); ("a", VNum (num 1))])
              (VObj Plain [("a", VNum (num 1)); ("b", VUndefined)]).
Proof.
  exact (deepEqual_ignores_key_order Plain Plain
           [("a", VNum (num 1)); ("b", VUndefined)]
           [("b", VUndefined); ("a", VNum (num 1))]
           [("b", VUndefined); ("a", VNum (num 1))]
           [("a", VNum (num 1)); ("b", VUndefined)]
           (perm_swap _ _ []) (perm_swap _ _ [])
           (proj1 (distinct_NoDup ["b"; "a"]) eq_refl)).
Defined.

(** ** More on the loop *)

Section RunnerMore.

Variable World : Type.
Variable run_body : string -> World -> behaviour World body_completion.
Variable apply : function -> list value -> World -> behaviour World (completion value).
Variable JSON_stringify : value -> stringified.
Variable String_of : value -> completion string.

Local Abbreviation serializeValue := (serializeValue JSON_stringify String_of).
Local Abbreviation error_text := (error_text String_of).
Local Abbreviation attempt := (attempt JSON_stringify String_of).
Local Abbreviation rescue := (rescue String_of).
Local Abbreviation run_case := (run_case apply JSON_stringify String_of).
Local Abbreviation run_cases := (run_cases apply JSON_stringify String_of).
Local Abbreviation runTests := (runTests apply JSON_stringify String_of).
Local Abbreviation onmessage := (onmessage run_body apply JSON_stringify String_of).
Local Abbreviation verdict := (verdict JSON_stringify String_of).
Local Abbreviation verdicts := (verdicts JSON_stringify String_of).
Local Abbreviation the_console := (snd (captureConsole JSON_stringify String_of)).

Lemma run_case_verdict f c tc (st : state World) :
  fst (run_case f c tc st)
  = verdict tc (fst (perform c (apply f (spread (case_args tc)) (world st))
                             (logs st))).
Proof. apply run_case_result. Qed.

Lemma attempt_shaped tc called r : attempt tc called = Returns r -> well_shaped r.
Proof.
  unfold attempt, well_shaped. destruct called as [v|e]; cbn; [|discriminate].
  destruct (deepEqual v (case_expected tc)).
  - intros H. injection H as <-. cbn.
    repeat split; intros; try discriminate; try congruence.
  - destruct (serializeValue (case_expected tc)); cbn; [|discriminate].
    destruct (serializeValue v); cbn; [|discriminate].
    intros H. injection H as <-. cbn.
    repeat split; intros; try discriminate; try congruence.
Qed.

Lemma rescue_shaped tc e r : rescue tc e = Returns r -> well_shaped r.
Proof.
  unfold rescue, well_shaped. destruct (error_text e); cbn; [|discriminate].
  intros H. injection H as <-. cbn.
  repeat split; intros; try discriminate; try congruence.
Qed.

Lemma verdict_shaped tc called r : verdict tc called = Returns r -> well_shaped r.
Proof.
  unfold verdict, catch. destruct (attempt tc called) as [r'|e] eqn:Ha.
  - intros H. injection H as <-. exact (attempt_shaped _ _ _ Ha).
  - apply rescue_shaped.
Qed.

Lemma run_cases_shaped f c cs : forall (st : state World) rs,
  fst (run_cases f c cs [] st) = Returns rs -> Forall well_shaped rs.
Proof.
  induction cs as [|tc cs IH]; intros st rs.
  - cbn. intros H. injection H as <-. constructor.
  - rewrite (run_cases_cons World apply JSON_stringify String_of).
    destruct (run_case f c tc st) as [[r|e] st'] eqn:Hc; [|discriminate].
    destruct (run_cases f c cs [] st') as [[rs'|e] st''] eqn:Hr; [|discriminate].
    cbn. intros H. injection H as <-. constructor.
    + apply (verdict_shaped tc
               (fst (perform c (apply f (spread (case_args tc)) (world st))
                            (logs st)))).
      rewrite <- run_case_verdict. now rewrite Hc.
    + apply (IH st'). now rewrite Hr.
Qed.

(** X4: every result of a Success response is well shaped: a passing result
    has no error, expected or actual field; a failing one has an error;
    expected and actual are present together, and only with the message
    "Output mismatch.". *)
Theorem results_are_well_shaped
    (data : WorkerRequest) (w : World) (results : list TestResult)
    (lines : list string) :
  fst (onmessage data w) = Some (Success results lines) ->
  Forall well_shaped results.
Proof.
  intros H.
  destruct (resolved (fst (perform the_console (run_body (code data) w) [])))
    as [v|t] eqn:Hr.
  - destruct (is_callable v) eqn:Hv.
    + destruct v as [| | | | |f| |]; try discriminate Hv.
      rewrite (onmessage_callable _ _ _ _ _ _ _ _ Hr) in H. cbn [fst] in H.
      destruct (fst (run_cases f _ _ [] _)) as [rs|e] eqn:Hrun.
      * injection H as <- _. exact (run_cases_shaped _ _ _ _ _ Hrun).
      * destruct (error_text e); discriminate H.
    + rewrite (onmessage_not_callable _ _ _ _ _ _ _ _ Hr Hv) in H.
      discriminate H.
  - rewrite (onmessage_load_throws _ _ _ _ _ _ _ _ Hr) in H. cbn [fst] in H.
    destruct (error_text t); discriminate H.
Qed.

(** X5: cases added at the end of the list leave the loop over the cases
    before them as it was.  When the loop over the shorter list throws, the
    loop over the longer one throws the same, from the same state, and the
    added cases are never run; when it returns, the longer loop goes on
    with the added cases from the state it left, and its results, if it
    returns, are those of the shorter list followed by one result per added
    case. *)
Theorem appended_cases_keep_earlier_results
    (f : function) (sandboxConsole : console) (cases more : list Case)
    (st : state World) :
  (forall e st', runTests (VFun f) sandboxConsole cases st = (Throws e, st') ->
     runTests (VFun f) sandboxConsole (cases ++ more) st = (Throws e, st'))
  /\ (forall earlier st',
        runTests (VFun f) sandboxConsole cases st = (Returns earlier, st') ->
        (forall e st'',
            run_cases f sandboxConsole more [] st' = (Throws e, st'') ->
            runTests (VFun f) sandboxConsole (cases ++ more) st = (Throws e, st''))
        /\ (forall later st'',
              run_cases f sandboxConsole more [] st' = (Returns later, st'') ->
              runTests (VFun f) sandboxConsole (cases ++ more) st
              = (Returns (earlier ++ later), st'')
              /\ List.length later = List.length more))
  /\ (forall results,
        fst (runTests (VFun f) sandboxConsole (cases ++ more) st) = Returns results ->
        exists earlier later,
          fst (runTests (VFun f) sandboxConsole cases st) = Returns earlier
          /\ results = earlier ++ later
          /\ List.length earlier = List.length cases
          /\ List.length later = List.length more).
Proof.
  cbn [runTests].
  pose proof (run_cases_app World apply JSON_stringify String_of
                f sandboxConsole cases more st) as Happ.
  split; [|split].
  - intros e st' H. now rewrite Happ, H.
  - intros earlier st' H. split.
    + intros e st'' Hm. now rewrite Happ, H, Hm.
    + intros later st'' Hm. split; [now rewrite Happ, H, Hm|].
      symmetry. apply (Forall2_length
                         (run_cases_names World apply JSON_stringify String_of
                            f sandboxConsole more st' later
                            ltac:(now rewrite Hm))).
  - intros results H. rewrite Happ in H.
    destruct (run_cases f sandboxConsole cases [] st) as [[earlier|e] st'] eqn:Hc;
      [|discriminate H].
    destruct (run_cases f sandboxConsole more [] st') as [[later|e] st''] eqn:Hm;
      [|discriminate H].
    cbn in H. injection H as <-. exists earlier, later.
    split; [reflexivity|]. split; [reflexivity|]. split.
    + symmetry. apply (Forall2_length
                         (run_cases_names World apply JSON_stringify String_of
                            f sandboxConsole cases st earlier
                            ltac:(now rewrite Hc))).
    + symmetry. apply (Forall2_length
                         (run_cases_names World apply JSON_stringify String_of
                            f sandboxConsole more st' later
                            ltac:(now rewrite Hm))).
Qed.

(** X6: for an entry point that prints nothing, keeps no state and answers
    by its arguments alone, the loop gives the verdicts of the cases one by
    one, each from its own case only, up to the first turn that throws; the
    run leaves the log buffer and the program's state untouched. *)
Theorem pure_entry_verdicts
    (f : function) (result : list value -> completion value)
    (sandboxConsole : console) (cases : list Case) (st : state World) :
  pure_entry apply f result ->
  runTests (VFun f) sandboxConsole cases st = (verdicts result cases, st)
  /\ (forall results,
        verdicts result cases = Returns results ->
        Forall2 (fun testCase r =>
                   verdict testCase (result (spread (case_args testCase)))
                   = Returns r) cases results).
Proof.
  intros Hpure.
  assert (Hcase : forall tc (s : state World),
             run_case f sandboxConsole tc s
             = (verdict tc (result (spread (case_args tc))), s)).
  { intros tc s. unfold run_case. rewrite Hpure. cbn. now destruct s. }
  split.
  - cbn [runTests]. revert st.
    induction cases as [|tc cs IH]; intros s; [reflexivity|].
    rewrite (run_cases_cons World apply JSON_stringify String_of), Hcase.
    cbn [verdicts]. destruct (verdict tc (result (spread (case_args tc)))) as [r|e];
      cbn; [|reflexivity].
    rewrite IH. now destruct (verdicts result cs).
  - induction cases as [|tc cs IH]; intros results; cbn.
    + intros H. injection H as <-. constructor.
    + destruct (verdict tc (result (spread (case_args tc)))) as [r|e] eqn:Hv;
        cbn; [|discriminate].
      destruct (verdicts result cs) as [rs|e]; cbn; [|discriminate].
      intros H. injection H as <-. constructor; [assumption | now apply IH].
Qed.

End RunnerMore.

Lemma pure_entry_verdicts_witness :
  runTests Sample.apply Sample.JSON_stringify Sample.String_of
    (VFun (Closure 4)) Sample.the_console
    [{| case_name := "Case 1 (7)"; case_args := [Some (VNum (num 7))];
        case_expected := VNum (num 7) |};
     {| case_name := "Case 2 (1)"; case_args := [Some (VNum (num 1))];
        case_expected := VStr "1" |}]
    {| logs := ["loaded"]; world := 0 |}
  = (Returns [{| name := "Case 1 (7)"; pass := true; error := None;
                 expected := Absent; actual := Absent |};
              {| name := "Case 2 (1)"; pass := false;
                 error := Some "Output mismatch.";
                 expected := Present (Some "1"); actual := Present (Some "1") |}],
     {| logs := ["loaded"]; world := 0 |}).
Proof.
  refine (proj1 (pure_entry_verdicts nat Sample.apply Sample.JSON_stringify
            Sample.String_of (Closure 4)
            (fun args => Returns (Sample.first_arg args))
            Sample.the_console
            [{| case_name := "Case 1 (7)"; case_args := [Some (VNum (num 7))];
                case_expected := VNum (num 7) |};
             {| case_name := "Case 2 (1)"; case_args := [Some (VNum (num 1))];
                case_expected := VStr "1" |}]
            {| logs := ["loaded"]; world := 0 |} _)).
  intros args w. reflexivity.
Defined.

Lemma results_are_well_shaped_witness :
  Forall well_shaped
    [{| name := "Case 1 (9)"; pass := true; error := None;
        expected := Absent; actual := Absent |};
     {| name := "Case 2 (16)"; pass := false;
        error := Some "Output mismatch.";
        expected := Present (Some "5");
        actual := Present (Some "4") |}].
Proof.
  exact (results_are_well_shaped nat Sample.run_body Sample.apply
           Sample.JSON_stringify Sample.String_of
           {| code := Sample.sqrt_text;
              cases := Some [{| case_name := "Case 1 (9)";
                                case_args := [Some (VNum (num 9))];
                                case_expected := VNum (num 3) |};
                             {| case_name := "Case 2 (16)";
                                case_args := [Some (VNum (num 16))];
                                case_expected := VNum (num 5) |}] |} 0
           _ [] eq_refl).
Defined.

(** ** Decimal texts *)

Lemma string_of_uint_digits d : all_digits (NilEmpty.string_of_uint d) = true.
Proof. induction d; simpl; try assumption; reflexivity. Qed.

Lemma digits_prefix_digits s : all_digits (digits_prefix s) = true.
Proof.
  induction s as [|c s IH]; simpl; [reflexivity|].
  destruct (is_digit c) eqn:Hc; simpl; [now rewrite Hc | reflexivity].
Qed.

Lemma digits_prefix_all s : all_digits s = true -> digits_prefix s = s.
Proof.
  induction s as [|c s IH]; simpl; [reflexivity|].
  rewrite andb_true_iff. intros [Hc Hs]. rewrite Hc. now rewrite IH.
Qed.

Lemma digits_prefix_app s r :
  all_digits s = true -> digits_prefix (s ++ r) = (s ++ digits_prefix r)%string.
Proof.
  induction s as [|c s IH]; simpl; [reflexivity|].
  rewrite andb_true_iff. intros [Hc Hs]. rewrite Hc. now rewrite IH.
Qed.

Lemma string_app_empty (s : string) : (s ++ EmptyString)%string = s.
Proof. induction s as [|c s IH]; simpl; [reflexivity | now rewrite IH]. Qed.

Lemma digit_not_whitespace c : is_digit c = true -> is_whitespace c = false.
Proof.
  unfold is_digit, is_whitespace. cbv zeta.
  rewrite andb_true_iff, !Nat.leb_le. intros [H1 H2].
  apply orb_false_iff. split; [apply orb_false_iff; split|].
  - apply andb_false_iff. right. apply Nat.leb_gt. lia.
  - apply Nat.eqb_neq. lia.
  - apply Nat.eqb_neq. lia.
Qed.

Lemma digit_not_sign c :
  is_digit c = true -> Ascii.eqb c "-"%char = false /\ Ascii.eqb c "+"%char = false.
Proof.
  intros H. split; apply Ascii.eqb_neq; intros ->; discriminate H.
Qed.

(** The decimal text of a non-negative integer: digits, at least one, and
    read back as that integer. *)
Lemma decimal_text k :
  (0 <= k)%Z ->
  exists u, integer_text k = NilEmpty.string_of_uint u
            /\ u <> Decimal.Nil /\ Z.of_uint u = k.
Proof.
  intros Hk. unfold integer_text. destruct k as [|p|p]; [| |lia].
  - exists (Decimal.D0 Decimal.Nil). repeat split. discriminate.
  - exists (Pos.to_uint p). repeat split.
    + apply DecimalPos.Unsigned.to_uint_nonnil.
    + exact (DecimalZ.of_to (Z.pos p)).
Qed.

Lemma string_of_uint_nonempty u :
  u <> Decimal.Nil -> is_empty (NilEmpty.string_of_uint u) = false.
Proof. destruct u; simpl; try reflexivity. now intros H. Qed.

Lemma digits_value_text k : (0 <= k)%Z -> digits_value (integer_text k) = k.
Proof.
  intros Hk. destruct (decimal_text k Hk) as [u [Hu [_ Hv]]].
  unfold digits_value. now rewrite Hu, NilEmpty.usu.
Qed.

Lemma digits_value_nonneg s : (0 <= digits_value s)%Z.
Proof.
  unfold digits_value. destruct (NilEmpty.uint_of_string s) as [d|]; [|lia].
  unfold Z.of_uint. apply N2Z.is_nonneg.
Qed.

(** The regular expression finds in an id built from a number the digits of
    that number. *)
Lemma exec_case_own_id k :
  (0 <= k)%Z ->
  exec_case ("case-" ++ integer_text k) = Some (integer_text k).
Proof.
  intros Hk. destruct (decimal_text k Hk) as [u [Hu [Hn _]]].
  rewrite Hu.
  cbn [exec_case append]. unfold match_case_here.
  cbn [strip_prefix Ascii.eqb Bool.eqb andb].
  rewrite (digits_prefix_all _ (string_of_uint_digits u)).
  now rewrite (string_of_uint_nonempty u Hn).
Qed.

(** What the regular expression finds is a run of digits, at least one. *)
Lemma exec_case_digits text digits :
  exec_case text = Some digits ->
  all_digits digits = true /\ is_empty digits = false.
Proof.
  induction text as [|c text IH].
  - cbn. discriminate.
  - cbn [exec_case]. destruct (match_case_here (String c text)) as [d|] eqn:Hm.
    + intros H. injection H as <-. unfold match_case_here in Hm.
      destruct (strip_prefix "case-" (String c text)) as [rest|]; [|discriminate].
      destruct (is_empty (digits_prefix rest)) eqn:He; [discriminate|].
      injection Hm as <-. split; [apply digits_prefix_digits | exact He].
    + exact IH.
Qed.

(** ** Numbers up to 2^53 *)

Lemma rounded_exact z : (0 <= z <= SAFE_LIMIT)%Z -> rounded z = Int z.
Proof.
  intros Hz. unfold rounded.
  destruct (Z.ltb_spec (Z.abs z) SAFE_LIMIT) as [Hlt|Hge]; [reflexivity|].
  assert (z = SAFE_LIMIT) by lia. subst z. vm_compute. reflexivity.
Qed.

Lemma parseInt10_digits digits :
  all_digits digits = true -> is_empty digits = false ->
  parseInt10 digits = rounded (digits_value digits).
Proof.
  intros Hd Hne. unfold parseInt10.
  destruct digits as [|c s]; [discriminate Hne|].
  simpl in Hd. apply andb_true_iff in Hd. destruct Hd as [Hc Hs].
  cbn [trimStart]. rewrite (digit_not_whitespace c Hc).
  destruct (digit_not_sign c Hc) as [-> ->]. cbn [fst snd].
  assert (Hall : all_digits (String c s) = true) by (simpl; now rewrite Hc, Hs).
  now rewrite (digits_prefix_all _ Hall).
Qed.

(** ** getNextCaseId *)

(** The loop of [getNextCaseId] on ids whose numbers are below 2^53: the
    maximum stays an integer below 2^53, and no number read is above it. *)
Lemma max_case_id_bounds items : forall m,
  below_limit items -> (0 <= m < SAFE_LIMIT)%Z ->
  exists r,
    fold_left next_max items (Int m) = Int r
    /\ (m <= r < SAFE_LIMIT)%Z
    /\ forall item z, In item items -> found_in (id item) = Some z -> (z <= r)%Z.
Proof.
  induction items as [|item items IH]; intros m Hb Hm.
  - exists m. cbn [fold_left]. split; [reflexivity|]. split; [lia | intros ? ? []].
  - assert (Hrest : below_limit items).
    { intros tc z Hin. apply Hb. now right. }
    cbn [fold_left]. unfold next_max at 2.
    destruct (exec_case (id item)) as [digits|] eqn:Hex.
    + destruct (exec_case_digits _ _ Hex) as [Hd Hne].
      pose proof (digits_value_nonneg digits) as H0.
      assert (Hz : (digits_value digits < SAFE_LIMIT)%Z).
      { apply (Hb item); [now left|]. unfold found_in. now rewrite Hex. }
      rewrite (parseInt10_digits _ Hd Hne), rounded_exact by lia.
      cbn [Number_isNaN negb Math_max].
      destruct (IH (Z.max m (digits_value digits)) Hrest ltac:(lia))
        as [r [Hr [Hle Hall]]].
      exists r. split; [exact Hr|]. split; [lia|].
      intros item' z [<-|Hin] Hf; [|exact (Hall item' z Hin Hf)].
      unfold found_in in Hf. rewrite Hex in Hf. injection Hf as <-. lia.
    + destruct (IH m Hrest Hm) as [r [Hr [Hle Hall]]].
      exists r. split; [exact Hr|]. split; [lia|].
      intros item' z [<-|Hin] Hf; [|exact (Hall item' z Hin Hf)].
      unfold found_in in Hf. now rewrite Hex in Hf.
Qed.

(** A case whose number is below [n] does not bear an id built from [n] or
    from a later number. *)
Lemma found_below_fresh n cases :
  (0 <= n)%Z ->
  (forall testCase z, In testCase cases -> found_in (id testCase) = Some z ->
                      (z < n)%Z) ->
  fresh_above n cases.
Proof.
  intros Hn H tc k Hin Hk Hid.
  assert (H0 : (0 <= k)%Z) by lia.
  assert (Hf : found_in (id tc) = Some k).
  { unfold found_in. rewrite Hid, (exec_case_own_id k H0).
    now rewrite (digits_value_text k H0). }
  specialize (H tc k Hin Hf). lia.
Qed.

Lemma fresh_above_weaken n m cases :
  (n <= m)%Z -> fresh_above n cases -> fresh_above m cases.
Proof. intros Hnm H tc k Hin Hk. apply (H tc k Hin). lia. Qed.

Lemma getNextCaseId_bounds items :
  below_limit items ->
  exists n,
    getNextCaseId items = Int n /\ (1 <= n <= SAFE_LIMIT)%Z
    /\ (forall testCase z, In testCase items ->
                           found_in (id testCase) = Some z -> (z < n)%Z).
Proof.
  intros Hb.
  destruct (max_case_id_bounds items 0 Hb ltac:(unfold SAFE_LIMIT; lia))
    as [r [Hr [Hle Hall]]].
  exists (r + 1)%Z. unfold getNextCaseId. rewrite Hr. cbn [plus_one].
  rewrite rounded_exact by lia. split; [reflexivity|]. split; [lia|].
  intros tc z Hin Hf. specialize (Hall tc z Hin Hf). lia.
Qed.

(** X7: when every number read in the ids is below 2^53, the number
    getNextCaseId returns is at least 1, at most 2^53, and above the number
    read in the id of every case, so that no case of the list bears the id
    the page would build from that number or from a later one up to
    2^53. *)
Theorem getNextCaseId_is_fresh (items : list TestCaseDraft) :
  below_limit items ->
  exists n,
    getNextCaseId items = Int n
    /\ (1 <= n <= SAFE_LIMIT)%Z
    /\ (forall testCase z, In testCase items ->
                           found_in (id testCase) = Some z -> (z < n)%Z)
    /\ fresh_above n items.
Proof.
  intros Hb. destruct (getNextCaseId_bounds items Hb) as [n [Hn [Hr Hall]]].
  exists n. split; [exact Hn|]. split; [exact Hr|]. split; [exact Hall|].
  apply found_below_fresh; [lia | exact Hall].
Qed.

(** Past 2^53 the counter stands still: an id that carries 2^53 makes
    [getNextCaseId] return 2^53 again, and [addCase] at 2^53 builds the
    same id twice. *)
Example getNextCaseId_at_the_limit (large_text : Z -> string) :
  let top := {| id := "case-9007199254740992"; args := EmptyString;
                expected_text := EmptyString |} in
  getNextCaseId [top] = Int 9007199254740992
  /\ addCase large_text [top] (Int 9007199254740992)
     = ([top; top], Int 9007199254740992).
Proof. split; vm_compute; reflexivity. Qed.

(** ** Editing the cases *)

Lemma removeCase_ids i cases :
  map id (removeCase i cases)
  = filter (fun k => negb (String.eqb k i)) (map id cases).
Proof.
  unfold removeCase. induction cases as [|tc cases IH]; simpl; [reflexivity|].
  destruct (String.eqb (id tc) i); simpl; now rewrite IH.
Qed.

Lemma updateCase_ids i patch cases :
  patch_id patch = None ->
  map id (updateCase i patch cases) = map id cases.
Proof.
  intros Hp. unfold updateCase. rewrite map_map. apply map_ext.
  intros tc. destruct (String.eqb (id tc) i); [|reflexivity].
  unfold patched. simpl. now rewrite Hp.
Qed.

Lemma fresh_above_ids n cases cases' :
  incl (map id cases') (map id cases) ->
  fresh_above n cases -> fresh_above n cases'.
Proof.
  intros Hincl H tc k Hin Hk Hid.
  assert (Hi : In (id tc) (map id cases)) by (apply Hincl; now apply in_map).
  apply in_map_iff in Hi. destruct Hi as [tc0 [Heq Hin0]].
  apply (H tc0 k Hin0 Hk). congruence.
Qed.

Lemma integer_text_inj a b : integer_text a = integer_text b -> a = b.
Proof.
  unfold integer_text. intros H.
  rewrite <- (DecimalZ.of_to a), <- (DecimalZ.of_to b). f_equal.
  assert (Hs : Some (Z.to_int a) = Some (Z.to_int b))
    by (rewrite <- !NilEmpty.isi; now rewrite H).
  now injection Hs.
Qed.

Section IdsProperties.

Variable large_text : Z -> string.

Local Abbreviation Number_text := (Number_text large_text).
Local Abbreviation case_id := (case_id large_text).
Local Abbreviation addCase := (addCase large_text).

Lemma case_id_small n :
  (0 <= n <= SAFE_LIMIT)%Z -> case_id (Int n) = ("case-" ++ integer_text n)%string.
Proof.
  intros Hn. unfold case_id, Number_text.
  destruct (Z.leb_spec (Z.abs n) SAFE_LIMIT) as [_|Hgt]; [reflexivity | lia].
Qed.

(** X8: while the counter is below 2^53, the editing operations keep the
    ids of the cases distinct and out of reach of the counter: removing a
    case, updating a case without touching its id, and adding a case (which
    takes its id from the counter and moves the counter on by one). *)
Theorem editing_keeps_ids_distinct (cases : list TestCaseDraft) (n : Z) :
  (0 <= n < SAFE_LIMIT)%Z ->
  NoDup (map id cases) -> fresh_above n cases ->
  (forall i, NoDup (map id (removeCase i cases))
             /\ fresh_above n (removeCase i cases))
  /\ (forall i patch, patch_id patch = None ->
        NoDup (map id (updateCase i patch cases))
        /\ fresh_above n (updateCase i patch cases))
  /\ addCase cases (Int n)
     = (cases ++ [{| id := ("case-" ++ integer_text n)%string;
                     args := EmptyString; expected_text := EmptyString |}],
        Int (n + 1))
  /\ NoDup (map id (fst (addCase cases (Int n))))
  /\ fresh_above (n + 1) (fst (addCase cases (Int n))).
Proof.
  intros Hn Hnd Hfresh.
  assert (Hadd : addCase cases (Int n)
                 = (cases ++ [{| id := ("case-" ++ integer_text n)%string;
                                 args := EmptyString;
                                 expected_text := EmptyString |}],
                    Int (n + 1))).
  { unfold addCase. rewrite case_id_small by lia. cbn [plus_one].
    now rewrite rounded_exact by lia. }
  split; [|split; [|split; [exact Hadd|]]].
  - intros i. split.
    + rewrite removeCase_ids. now apply NoDup_filter.
    + apply (fresh_above_ids n cases); [|assumption].
      rewrite removeCase_ids. intros k Hk. now apply filter_In in Hk.
  - intros i patch Hp. split.
    + now rewrite updateCase_ids.
    + apply (fresh_above_ids n cases); [|assumption].
      rewrite updateCase_ids by assumption. apply incl_refl.
  - rewrite Hadd. cbn [fst]. split.
    + rewrite map_app. cbn [map id].
      apply NoDup_app; [assumption | repeat constructor; intros [] |].
      intros k Hk [<-|[]].
      apply in_map_iff in Hk. destruct Hk as [tc [Hid Hin]].
      apply (Hfresh tc n Hin); [lia | exact Hid].
    + intros tc k Hin Hk. apply in_app_or in Hin. destruct Hin as [Hin|[<-|[]]].
      * apply (Hfresh tc k Hin). lia.
      * cbn [id]. intros Heq. cbn [append] in Heq. injection Heq as Heq.
        apply integer_text_inj in Heq. lia.
Qed.

(** X9: adding a case and removing it again gives the list back, provided
    no case bears the id the counter produces. *)
Theorem added_case_can_be_removed (cases : list TestCaseDraft) (nextId : Num) :
  (forall testCase, In testCase cases -> id testCase <> case_id nextId) ->
  removeCase (case_id nextId) (fst (addCase cases nextId)) = cases.
Proof.
  intros Hfresh. unfold addCase, removeCase. cbn [fst].
  rewrite filter_app. cbn [filter id].
  rewrite String.eqb_refl. cbn [negb]. rewrite app_nil_r.
  apply forallb_filter_id. apply forallb_forall. intros tc Hin.
  apply negb_true_iff. apply String.eqb_neq. exact (Hfresh tc Hin).
Qed.

(** X10: after the cases of a saved state are restored, whatever the
    counter was up to 2^53, the counter is above every number read in the
    saved ids and the next added case gets an id that none of them bears,
    provided every number read in the saved ids is below 2^53: with
    distinct saved ids the ids stay distinct. *)
Theorem restored_cases_get_fresh_ids
    (saved : list TestCaseDraft) (nextId : Z) :
  below_limit saved ->
  (0 <= nextId <= SAFE_LIMIT)%Z ->
  NoDup (map id saved) ->
  exists n,
    restoreCases saved (Int nextId) = (saved, Int n)
    /\ (1 <= n <= SAFE_LIMIT)%Z /\ (nextId <= n)%Z
    /\ (forall testCase z, In testCase saved ->
                           found_in (id testCase) = Some z -> (z < n)%Z)
    /\ ~ In (case_id (Int n)) (map id saved)
    /\ NoDup (map id (fst (addCase saved (Int n)))).
Proof.
  intros Hb Hn Hnd.
  destruct (getNextCaseId_bounds saved Hb) as [m [Hm [Hr Hall]]].
  exists (Z.max nextId m). unfold restoreCases. rewrite Hm. cbn [Math_max].
  split; [reflexivity|]. split; [lia|]. split; [lia|].
  assert (Hbelow : forall testCase z, In testCase saved ->
                     found_in (id testCase) = Some z -> (z < Z.max nextId m)%Z).
  { intros tc z Hin Hf. specialize (Hall tc z Hin Hf). lia. }
  split; [exact Hbelow|].
  assert (Hnew : ~ In (case_id (Int (Z.max nextId m))) (map id saved)).
  { rewrite case_id_small by lia. intros Hin.
    apply in_map_iff in Hin. destruct Hin as [tc [Hid Hin]].
    apply (found_below_fresh (Z.max nextId m) saved ltac:(lia) Hbelow
             tc (Z.max nextId m) Hin); [lia | exact Hid]. }
  split; [exact Hnew|].
  unfold addCase. cbn [fst]. rewrite map_app. cbn [map id].
  apply NoDup_app; [assumption | repeat constructor; intros [] |].
  intros k Hk [<-|[]]. now apply Hnew.
Qed.

End IdsProperties.

Lemma defaultCases_distinct : NoDup (map id defaultCases).
Proof. apply distinct_NoDup. reflexivity. Qed.

Lemma defaultCases_below : below_limit defaultCases.
Proof.
  intros tc z [<-|[<-|[<-|[]]]] H; vm_compute in H; injection H as <-;
    reflexivity.
Qed.

Lemma defaultCases_fresh : fresh_above 4 defaultCases.
Proof.
  apply found_below_fresh; [lia|].
  intros tc z [<-|[<-|[<-|[]]]] H; vm_compute in H; injection H as <-;
    reflexivity.
Qed.

(** Three ids for the examples: the regular expression reads 1 in the
    first, 41 in the second and nothing in the third. *)
Lemma sample_ids_below :
  below_limit [{| id := "case-1"; args := "9"; expected_text := "3" |};
               {| id := "mycase-41z"; args := "0"; expected_text := "0" |};
               {| id := "other"; args := "2"; expected_text := "1" |}].
Proof.
  intros tc z [<-|[<-|[<-|[]]]] H; vm_compute in H; try discriminate H;
    injection H as <-; reflexivity.
Qed.

Lemma getNextCaseId_is_fresh_witness :
  exists n,
    getNextCaseId
      [{| id := "case-1"; args := "9"; expected_text := "3" |};
       {| id := "mycase-41z"; args := "0"; expected_text := "0" |};
       {| id := "other"; args := "2"; expected_text := "1" |}] = Int n
    /\ (1 <= n <= SAFE_LIMIT)%Z
    /\ (forall testCase z,
          In testCase
             [{| id := "case-1"; args := "9"; expected_text := "3" |};
              {| id := "mycase-41z"; args := "0"; expected_text := "0" |};
              {| id := "other"; args := "2"; expected_text := "1" |}] ->
          found_in (id testCase) = Some z -> (z < n)%Z)
    /\ fresh_above n
         [{| id := "case-1"; args := "9"; expected_text := "3" |};
          {| id := "mycase-41z"; args := "0"; expected_text := "0" |};
          {| id := "other"; args := "2"; expected_text := "1" |}].
Proof.
  exact (getNextCaseId_is_fresh
           [{| id := "case-1"; args := "9"; expected_text := "3" |};
            {| id := "mycase-41z"; args := "0"; expected_text := "0" |};
            {| id := "other"; args := "2"; expected_text := "1" |}]
           sample_ids_below).
Defined.

Lemma editing_keeps_ids_distinct_witness :
  NoDup (map id (defaultCases
                   ++ [{| id := "case-4"; args := EmptyString;
                          expected_text := EmptyString |}]))
  /\ fresh_above 5 (defaultCases
                      ++ [{| id := "case-4"; args := EmptyString;
                             expected_text := EmptyString |}]).
Proof.
  refine (proj2 (proj2 (proj2
            (editing_keeps_ids_distinct integer_text defaultCases 4 _
               defaultCases_distinct defaultCases_fresh)))).
  split; [discriminate | reflexivity].
Defined.

Lemma added_case_can_be_removed_witness :
  removeCase "case-4"
    (defaultCases ++ [{| id := "case-4"; args := EmptyString;
                         expected_text := EmptyString |}])
  = defaultCases.
Proof.
  refine (added_case_can_be_removed integer_text defaultCases (Int 4) _).
  intros tc [<-|[<-|[<-|[]]]]; discriminate.
Defined.

Lemma restored_cases_get_fresh_ids_witness :
  exists n,
    restoreCases
      [{| id := "case-1"; args := "9"; expected_text := "3" |};
       {| id := "mycase-41z"; args := "0"; expected_text := "0" |};
       {| id := "other"; args := "2"; expected_text := "1" |}] (Int 4)
    = ([{| id := "case-1"; args := "9"; expected_text := "3" |};
        {| id := "mycase-41z"; args := "0"; expected_text := "0" |};
        {| id := "other"; args := "2"; expected_text := "1" |}], Int n)
    /\ (1 <= n <= SAFE_LIMIT)%Z /\ (4 <= n)%Z.
Proof.
  assert (Hn : (0 <= 4 <= SAFE_LIMIT)%Z) by (split; discriminate).
  destruct (restored_cases_get_fresh_ids integer_text
              [{| id := "case-1"; args := "9"; expected_text := "3" |};
               {| id := "mycase-41z"; args := "0"; expected_text := "0" |};
               {| id := "other"; args := "2"; expected_text := "1" |}] 4
              sample_ids_below Hn
              (proj1 (distinct_NoDup ["case-1"; "mycase-41z"; "other"]) eq_refl))
    as [n [H1 [H2 [H3 _]]]].
  exists n. split; [exact H1|]. split; [exact H2 | exact H3].
Defined.

(** ** The names of the cases *)

Lemma trimEnd_keep c s :
  is_whitespace c = false -> trimEnd (String c s) = String c (trimEnd s).
Proof. intros H. simpl. rewrite H. now destruct (trimEnd s). Qed.

Lemma trimEnd_digits s t :
  all_digits s = true -> trimEnd (s ++ t) = (s ++ trimEnd t)%string.
Proof.
  induction s as [|c s IH]; intros H; [reflexivity|].
  simpl in H. apply andb_true_iff in H. destruct H as [Hc Hs].
  cbn [append]. rewrite (trimEnd_keep c _ (digit_not_whitespace c Hc)).
  now rewrite IH.
Qed.

(** What is left of [" " ++ label] after trimming starts with no digit. *)
Lemma trimEnd_space_no_digit label :
  digits_prefix (trimEnd (String " " label)) = EmptyString.
Proof. simpl. now destruct (trimEnd label). Qed.

Lemma decimal_nonempty n : is_empty (decimal (S n)) = false.
Proof.
  unfold decimal. apply string_of_uint_nonempty. intros H.
  pose proof (DecimalNat.Unsigned.of_to (S n)) as Hn. rewrite H in Hn.
  discriminate Hn.
Qed.

Lemma decimal_inj n m : decimal n = decimal m -> n = m.
Proof.
  unfold decimal. intros H. apply DecimalNat.Unsigned.to_uint_inj.
  assert (Hs : Some (Nat.to_uint n) = Some (Nat.to_uint m))
    by (rewrite <- !NilEmpty.usu; now rewrite H).
  now injection Hs.
Qed.

Lemma trim_case_name D t :
  all_digits D = true -> is_empty D = false ->
  trim ("Case " ++ D ++ t) = ("Case " ++ D ++ trimEnd t)%string.
Proof.
  intros Hd Hne. unfold trim. cbn [append].
  change (trimStart (String "C" (String "a" (String "s" (String "e"
            (String " " (D ++ t)))))))
    with (String "C" (String "a" (String "s" (String "e"
            (String " " (D ++ t)%string))))).
  rewrite !trimEnd_keep by reflexivity. do 4 f_equal.
  cbn [trimEnd]. rewrite (trimEnd_digits _ _ Hd).
  destruct D as [|c s]; [discriminate Hne | reflexivity].
Qed.

(** The name of a case: ["Case "], the position in decimal, and what is left
    of the label. *)
Lemma case_name_shape (JSON_parse : string -> option value) index draft :
  exists rest,
    case_name (parsed_case JSON_parse index draft)
    = ("Case " ++ decimal (index + 1) ++ rest)%string
    /\ digits_prefix rest = EmptyString.
Proof.
  exists (trimEnd (String " " (if is_empty (trim (args draft)) then EmptyString
                               else "(" ++ args draft ++ ")"))%string).
  split; [|apply trimEnd_space_no_digit].
  cbn [parsed_case case_name].
  rewrite Nat.add_1_r.
  apply (trim_case_name (decimal (S index))).
  - apply string_of_uint_digits.
  - apply decimal_nonempty.
Qed.

Lemma case_name_index (JSON_parse : string -> option value) i j d d' :
  case_name (parsed_case JSON_parse i d) = case_name (parsed_case JSON_parse j d') ->
  i = j.
Proof.
  intros Heq.
  destruct (case_name_shape JSON_parse i d) as [r [Hn Hr]].
  destruct (case_name_shape JSON_parse j d') as [r' [Hn' Hr']].
  rewrite Hn, Hn' in Heq. cbn [append] in Heq.
  injection Heq as Heq.
  assert (Hd : decimal (i + 1) = decimal (j + 1)).
  { pose proof (f_equal digits_prefix Heq) as H.
    rewrite !digits_prefix_app in H by apply string_of_uint_digits.
    now rewrite Hr, Hr', !string_app_empty in H. }
  apply decimal_inj in Hd. lia.
Qed.

Lemma parsed_cases_In (JSON_parse : string -> option value) drafts :
  forall k c, In c (parsed_cases JSON_parse k drafts) ->
              exists j d, k <= j /\ c = parsed_case JSON_parse j d.
Proof.
  induction drafts as [|d drafts IH]; intros k c Hin; [contradiction|].
  destruct Hin as [<-|Hin].
  - exists k, d. split; [lia | reflexivity].
  - destruct (IH (S k) c Hin) as [j [d' [Hj Hc]]].
    exists j, d'. split; [lia | assumption].
Qed.

(** X11: the cases of a request bear distinct names, whatever the texts of
    the drafts: the name of a case starts with its position, and no
    trimming or label can make two positions read alike. *)
Theorem case_names_are_distinct
    (JSON_parse : string -> option value) (code : string)
    (drafts : list TestCaseDraft) :
  exists cs,
    handleRun JSON_parse true code drafts = Some {| code := code; cases := Some cs |}
    /\ NoDup (map case_name cs).
Proof.
  exists (parsed_cases JSON_parse 0 drafts). split; [reflexivity|].
  generalize 0. induction drafts as [|d drafts IH]; intros k; [constructor|].
  cbn [parsed_cases map]. constructor; [|apply IH].
  intros Hin. apply in_map_iff in Hin. destruct Hin as [c [Hname Hc]].
  destruct (parsed_cases_In JSON_parse drafts (S k) c Hc) as [j [d' [Hj ->]]].
  apply case_name_index in Hname. lia.
Qed.

(** ** From the Run button to the results shown *)

Section RunButton.

Variable World : Type.
Variable run_body : string -> World -> behaviour World body_completion.
Variable apply : function -> list value -> World -> behaviour World (completion value).
Variable JSON_stringify : value -> stringified.
Variable String_of : value -> completion string.
Variable JSON_parse : string -> option value.

Local Abbreviation onmessage := (onmessage run_body apply JSON_stringify String_of).
Local Abbreviation run_cases := (run_cases apply JSON_stringify String_of).
Local Abbreviation error_text := (error_text String_of).
Local Abbreviation parsed_cases := (parsed_cases JSON_parse).
Local Abbreviation the_console := (snd (captureConsole JSON_stringify String_of)).

Lemma passCount_le results : passCount results <= List.length results.
Proof. unfold passCount. apply filter_length_le. Qed.

Lemma Forall2_names cs (rs : list TestResult) :
  Forall2 (fun tc r => name r = case_name tc) cs rs ->
  map name rs = map case_name cs.
Proof. induction 1; simpl; congruence. Qed.

(** The results of a Success bear the names of the cases of the request,
    in their order. *)
Lemma success_names (data : WorkerRequest) (w : World) results lines :
  fst (onmessage data w) = Some (Success results lines) ->
  map name results
  = map case_name (match cases data with Some cs => cs | None => [] end).
Proof.
  intros H.
  destruct (resolved (fst (perform the_console (run_body (code data) w) [])))
    as [v|t] eqn:Hr.
  - destruct (is_callable v) eqn:Hv.
    + destruct v as [| | | | |f| |]; try discriminate Hv.
      rewrite (onmessage_callable _ _ _ _ _ _ _ _ Hr) in H. cbn [fst] in H.
      destruct (fst (run_cases f _ _ [] _)) as [rs|e] eqn:Hrun.
      * injection H as <- _. apply Forall2_names.
        exact (run_cases_names _ _ _ _ _ _ _ _ _ Hrun).
      * destruct (error_text e); discriminate H.
    + rewrite (onmessage_not_callable _ _ _ _ _ _ _ _ Hr Hv) in H.
      discriminate H.
  - rewrite (onmessage_load_throws _ _ _ _ _ _ _ _ Hr) in H. cbn [fst] in H.
    destruct (error_text t); discriminate H.
Qed.

(** X12: what the page shows after a run.  When the worker answers with a
    Success, the page is idle with no error and the results of the
    response, one per draft, named after the drafts in their order (so at
    most as many passing results as drafts).  When it answers with a
    Failure, the page has the status error, no result, and the message of
    the response as its error, which it renders unless the message is
    empty.  In both cases the logs shown are those of the response.  When
    the worker posts nothing, the page stays running, with nothing shown. *)
Theorem run_shows_results_or_error
    (text : string) (drafts : list TestCaseDraft) (w : World) (v : RunView) :
  let request := {| code := text; cases := Some (parsed_cases 0 drafts) |} in
  let shown := shown_after (fst (onmessage request w)) v in
  handleRun JSON_parse true text drafts = Some request
  /\ match fst (onmessage request w) with
     | Some (Success results lines) =>
         shown = {| view_status := idle; view_results := results;
                    view_logs := lines; view_error := None |}
         /\ error_paragraph shown = None
         /\ map name results = map case_name (parsed_cases 0 drafts)
         /\ List.length results = List.length drafts
         /\ passCount results <= List.length drafts
     | Some (Failure message lines) =>
         shown = {| view_status := failed; view_results := [];
                    view_logs := lines; view_error := Some message |}
         /\ error_paragraph shown
            = (if is_empty message then None else Some message)
     | None =>
         shown = {| view_status := running; view_results := [];
                    view_logs := []; view_error := None |}
     end.
Proof.
  intros request shown. split; [reflexivity|]. subst shown.
  destruct (fst (onmessage request w)) as [[results lines|message lines]|] eqn:Hp;
    cbn [shown_after received started].
  - split; [reflexivity|]. split; [reflexivity|].
    pose proof (success_names request w results lines Hp) as Hn.
    cbn [cases request] in Hn.
    assert (Hlen : List.length results = List.length drafts).
    { rewrite <- (length_map name), Hn, length_map.
      apply parsed_cases_length. }
    split; [exact Hn|]. split; [exact Hlen|].
    rewrite <- Hlen. apply passCount_le.
  - split; reflexivity.
  - reflexivity.
Qed.

End RunButton.


(** ** The persistence adapter *)

Section PersistenceProperties.

Variable JSON_parse : string -> option value.
Variable JSON_stringify : value -> stringified.

Local Abbreviation load := (load JSON_parse).
Local Abbreviation save := (save JSON_stringify).
Local Abbreviation accepted := (accepted JSON_parse).
Local Abbreviation storage_handler := (storage_handler JSON_parse).

(** X13: a state that is saved is the state that is loaded, provided the
    write goes through and the two JSON functions agree on it; a saved
    value that is falsy or whose version is not 1 is not loaded. *)
Theorem saved_state_is_loaded (state : value) (text : string) (b : Browser) :
  has_window b = true -> storage_reachable b = true -> storage_writable b = true ->
  JSON_stringify state = SText text -> is_empty text = false ->
  JSON_parse text = Some state ->
  load (save state b)
  = if falsy state || negb (is_one (member state "version")) then None
    else Some state.
Proof.
  intros Hw Hr Hq Hs Ht Hp.
  assert (Hsave : save state b = setItem STORAGE_KEY text b).
  { unfold save. now rewrite Hw, Hs, Hr, Hq. }
  rewrite Hsave. unfold load, setItem. cbn [has_window storage_reachable items].
  rewrite Hw, Hr, String.eqb_refl, Ht. cbn [negb].
  unfold accepted. now rewrite Hp.
Qed.

Lemma save_other_keys state b k :
  k <> STORAGE_KEY -> items (save state b) k = items b k.
Proof.
  intros Hk. apply String.eqb_neq in Hk. unfold save.
  destruct (has_window b); cbn [negb]; [|reflexivity].
  destruct (JSON_stringify state);
    try (destruct (storage_reachable b && storage_writable b));
    cbn [setItem items]; now rewrite ?Hk.
Qed.

(** X14: save touches no item but the one under its key, and when it cannot
    write (no window, storage blocked or full, a state that does not
    serialize) it changes nothing, so that load returns what it returned
    before. *)
Theorem save_changes_one_item_or_nothing (state : value) (b : Browser) :
  (forall k, k <> STORAGE_KEY -> items (save state b) k = items b k)
  /\ (has_window b = false \/ storage_reachable b = false
      \/ storage_writable b = false \/ JSON_stringify state = SThrows ->
      save state b = b /\ load (save state b) = load b).
Proof.
  split; [intros k; apply save_other_keys|].
  intros H.
  assert (Hsame : save state b = b).
  { unfold save. destruct (has_window b) eqn:Hw; cbn [negb]; [|reflexivity].
    destruct (JSON_stringify state) eqn:Hs; try reflexivity;
      destruct (storage_reachable b) eqn:Hr; cbn [andb]; try reflexivity;
      destruct (storage_writable b) eqn:Hq; try reflexivity;
      destruct H as [H|[H|[H|H]]]; discriminate H. }
  split; [exact Hsame | now rewrite Hsame].
Qed.

(** X15: for an event on the adapter's key, the storage handler passes to
    [onChange] exactly what load returns from a storage that holds the
    event's new value: the two paths accept the same texts. *)
Theorem handler_agrees_with_load (event : StorageEvent) (b : Browser) :
  has_window b = true -> storage_reachable b = true ->
  event_key event = Some STORAGE_KEY ->
  items b STORAGE_KEY = event_newValue event ->
  storage_handler event = load b.
Proof.
  intros Hw Hr Hk Hv. unfold storage_handler, load.
  rewrite Hw, Hr, Hk, Hv. cbn [negb].
  destruct (event_newValue event) as [newValue|]; [|reflexivity].
  now rewrite String.eqb_refl.
Qed.

End PersistenceProperties.

Lemma saved_state_is_loaded_witness :
  load SampleStore.JSON_parse
    (save Sample.JSON_stringify (state_value SampleStore.state) SampleStore.browser)
  = Some (state_value SampleStore.state).
Proof.
  exact (saved_state_is_loaded SampleStore.JSON_parse Sample.JSON_stringify
           (state_value SampleStore.state) SampleStore.text SampleStore.browser
           eq_refl eq_refl eq_refl eq_refl eq_refl eq_refl).
Defined.

Lemma handler_agrees_with_load_witness :
  storage_handler SampleStore.JSON_parse
    {| event_key := Some STORAGE_KEY; event_newValue := Some SampleStore.text |}
  = load SampleStore.JSON_parse
      (save Sample.JSON_stringify (state_value SampleStore.state) SampleStore.browser).
Proof.
  exact (handler_agrees_with_load SampleStore.JSON_parse
           {| event_key := Some STORAGE_KEY; event_newValue := Some SampleStore.text |}
           (save Sample.JSON_stringify (state_value SampleStore.state) SampleStore.browser)
           eq_refl eq_refl eq_refl eq_refl).
Defined.

(** ** The generation route *)

Section RouteProperties.

Variable fetch : UpstreamCall -> awaited UpstreamResponse.
Variable not_a_function : thrown.
Variable refused_status : nat -> option thrown.

Local Abbreviation POST := (POST fetch not_a_function refused_status).
Local Abbreviation generate := (generate fetch refused_status).
Local Abbreviation prompt_text := (prompt_text not_a_function).

(** Case analysis on every [match] and [if] of the goal. *)
Ltac branches :=
  repeat match goal with
         | |- context [match ?x with _ => _ end] => destruct x eqn:?
         end.

Lemma generate_calls apiUrl apiKey model prompt :
  snd (generate apiUrl apiKey model prompt)
  = [{| call_url := apiUrl;
        call_authorization := ("Bearer " ++ apiKey)%string;
        call_payload := payload model prompt |}].
Proof. unfold generate. cbv zeta. branches; reflexivity. Qed.

(** What [generate] answers: a code on a 200, or an error on a status that
    is not in the range 200 to 299. *)
Lemma generate_answer apiUrl apiKey model prompt :
  let call := {| call_url := apiUrl;
                 call_authorization := ("Bearer " ++ apiKey)%string;
                 call_payload := payload model prompt |} in
  let r := fst (generate apiUrl apiKey model prompt) in
  (exists message, route_body r = ErrorBody message /\ route_ok r = false)
  \/ (exists response data,
        fetch call = Fulfilled response /\ up_ok response = true
        /\ up_json response = Fulfilled data
        /\ falsy (first_choice_content data) = false
        /\ r = {| route_status := 200;
                  route_body := CodeBody (first_choice_content data) |}).
Proof.
  intros call r. subst r. unfold generate. fold call.
  destruct (fetch call) as [response|e] eqn:Hf; [|left; now eexists].
  destruct (up_ok response) eqn:Hok; cbn [negb].
  - destruct (up_json response) as [data|e] eqn:Hj; [|left; now eexists].
    fold (first_choice_content data).
    destruct (falsy (first_choice_content data)) eqn:Hc; [left; now eexists|].
    right. exists response, data. repeat split; assumption.
  - destruct (up_text response) as [errorText|e]; [|left; now eexists].
    destruct (refused_status (up_status response)); [left; now eexists|].
    left. eexists. split; [reflexivity|]. exact Hok.
Qed.

(** [POST] either answers an error without calling, or goes on to
    [generate] with a prompt that is not blank and a full configuration. *)
Lemma POST_cases (env : Environment) (request : RouteRequest) :
  (exists message status,
      POST env request
      = ({| route_status := status; route_body := ErrorBody message |}, [])
      /\ (status = 400 \/ status = 500))
  \/ (exists body prompt apiUrl key model,
        request_json request = Fulfilled body
        /\ optional_member body "prompt" = VStr prompt
        /\ is_empty (trim prompt) = false
        /\ LLM_API_URL env = Some apiUrl /\ is_empty apiUrl = false
        /\ coalesce (x_llm_key request) (LLM_API_KEY env) = Some key
        /\ is_empty key = false
        /\ LLM_MODEL env = Some model /\ is_empty model = false
        /\ POST env request = generate apiUrl key model prompt).
Proof.
  unfold POST.
  destruct (request_json request) as [body|e] eqn:Hb;
    [|left; do 2 eexists; split; [reflexivity | now right]].
  unfold prompt_text.
  destruct (optional_member body "prompt") as [| |?|?|prompt|?|?|?] eqn:Hp;
    try (left; do 2 eexists; split; [reflexivity | now right]);
    try (left; do 2 eexists; split; [reflexivity | now left]).
  destruct (is_empty (trim prompt)) eqn:Ht;
    [left; do 2 eexists; split; [reflexivity | now left]|].
  fold (coalesce (x_llm_key request) (LLM_API_KEY env)).
  destruct (LLM_API_URL env) as [apiUrl|] eqn:Hu;
    [|left; do 2 eexists; split; [reflexivity | now right]].
  destruct (coalesce (x_llm_key request) (LLM_API_KEY env)) as [key|] eqn:Hk;
    [|left; do 2 eexists; split; [reflexivity | now right]].
  destruct (LLM_MODEL env) as [model|] eqn:Hm;
    [|left; do 2 eexists; split; [reflexivity | now right]].
  destruct (is_empty apiUrl) eqn:Eu; cbn [orb];
    [left; do 2 eexists; split; [reflexivity | now right]|].
  destruct (is_empty key) eqn:Ek; cbn [orb];
    [left; do 2 eexists; split; [reflexivity | now right]|].
  destruct (is_empty model) eqn:Em;
    [left; do 2 eexists; split; [reflexivity | now right]|].
  right. exists body, prompt, apiUrl, key, model. repeat split; assumption.
Qed.

(** The answer of [POST] is an error on a status outside the range 200 to
    299, or a code on a 200. *)
Lemma POST_answer (env : Environment) (request : RouteRequest) :
  (exists message,
      route_body (fst (POST env request)) = ErrorBody message
      /\ route_ok (fst (POST env request)) = false)
  \/ (exists code,
        fst (POST env request)
        = {| route_status := 200; route_body := CodeBody code |}).
Proof.
  destruct (POST_cases env request)
    as [[message [status [-> Hs]]]
       |[body [prompt [apiUrl [key [model [_ [_ [_ [_ [_ [_ [_ [_ [_ ->]]]]]]]]]]]]]]].
  - left. exists message. split; [reflexivity|].
    destruct Hs as [-> | ->]; reflexivity.
  - destruct (generate_answer apiUrl key model prompt)
      as [[message [Hbody Hok]]|[response [data [_ [_ [_ [_ Hr]]]]]]].
    + left. exists message. split; assumption.
    + right. eexists. exact Hr.
Qed.

(** X16: the route answers with a status in the range 200 to 299 exactly
    when it answers with code: the status is then 200, and the code is the
    truthy [choices[0].message.content] of the data an ok upstream response
    carried, unchanged; every error answer has a status outside that
    range. *)
Theorem route_is_ok_exactly_with_code (env : Environment) (request : RouteRequest) :
  (route_ok (fst (POST env request)) = true
   <-> exists code, route_body (fst (POST env request)) = CodeBody code)
  /\ (forall code, route_body (fst (POST env request)) = CodeBody code ->
        route_status (fst (POST env request)) = 200 /\ falsy code = false
        /\ exists call response data,
             snd (POST env request) = [call]
             /\ fetch call = Fulfilled response /\ up_ok response = true
             /\ up_json response = Fulfilled data
             /\ code = first_choice_content data).
Proof.
  destruct (POST_cases env request)
    as [[message [status [-> Hs]]]
       |[body [prompt [apiUrl [key [model [_ [_ [_ [_ [_ [_ [_ [_ [_ ->]]]]]]]]]]]]]]].
  - cbn [fst snd route_body]. split.
    + unfold route_ok. cbn [route_status]. split.
      * destruct Hs as [-> | ->]; discriminate.
      * intros [c Hc]. discriminate Hc.
    + intros c Hc. discriminate Hc.
  - rewrite generate_calls.
    destruct (generate_answer apiUrl key model prompt)
      as [[message [Hbody Hok]]
         |[response [data [Hf [Hok [Hj [Hc Hr]]]]]]].
    + rewrite Hbody, Hok. split.
      * split; [discriminate | intros [c Hcode]; discriminate Hcode].
      * intros c Hcode. discriminate Hcode.
    + rewrite Hr. cbn [route_body route_status]. split.
      * split; [intros _; now eexists | reflexivity].
      * intros c Hcode. injection Hcode as <-.
        split; [reflexivity|]. split; [assumption|].
        eexists _, response, data. repeat split; assumption.
Qed.

(** X17: the route calls [fetch] at most once, and only for a request whose
    prompt is a string that is not blank and with a full configuration; the
    call goes to [LLM_API_URL] with the key of the header when there is a
    header and that of the environment otherwise, and carries the model and
    the prompt as it came (not trimmed). *)
Theorem route_calls_upstream_once (env : Environment) (request : RouteRequest) :
  snd (POST env request) = []
  \/ exists body prompt apiUrl key model,
       request_json request = Fulfilled body
       /\ optional_member body "prompt" = VStr prompt
       /\ is_empty (trim prompt) = false
       /\ LLM_API_URL env = Some apiUrl
       /\ coalesce (x_llm_key request) (LLM_API_KEY env) = Some key
       /\ LLM_MODEL env = Some model
       /\ snd (POST env request)
          = [{| call_url := apiUrl;
                call_authorization := ("Bearer " ++ key)%string;
                call_payload := payload model prompt |}].
Proof.
  destruct (POST_cases env request)
    as [[message [status [-> _]]]
       |[body [prompt [apiUrl [key [model
          [Hb [Hp [Ht [Hu [_ [Hk [_ [Hm [_ ->]]]]]]]]]]]]]]].
  - now left.
  - right. exists body, prompt, apiUrl, key, model.
    rewrite generate_calls. repeat split; assumption.
Qed.

(** X18: a request whose body has no prompt, or a prompt that is empty or
    all white space, is answered 400 "Missing prompt." without a call of
    [fetch], whatever the configuration and the header are. *)
Theorem route_rejects_blank_prompt
    (env : Environment) (request : RouteRequest) (body : value) :
  request_json request = Fulfilled body ->
  (optional_member body "prompt" = VUndefined
   \/ optional_member body "prompt" = VNull
   \/ exists s, optional_member body "prompt" = VStr s /\ whitespace_only s = true) ->
  POST env request = (MISSING_PROMPT, []).
Proof.
  intros Hb H. unfold POST, prompt_text. rewrite Hb.
  destruct H as [->|[->|[s [-> Hs]]]]; try reflexivity.
  now rewrite (trim_whitespace s Hs).
Qed.

(** X19: with a prompt that is not blank, a request is answered 500 with
    the configuration message, and without a call of [fetch], as soon as
    the url, the model or the key is missing or empty, the key being the
    header's when the header is present: an empty header is not replaced by
    the key of the environment. *)
Theorem route_needs_configuration
    (env : Environment) (request : RouteRequest) (body : value) (prompt : string) :
  request_json request = Fulfilled body ->
  optional_member body "prompt" = VStr prompt ->
  is_empty (trim prompt) = false ->
  (unset (LLM_API_URL env) = true
   \/ unset (coalesce (x_llm_key request) (LLM_API_KEY env)) = true
   \/ unset (LLM_MODEL env) = true
   \/ x_llm_key request = Some EmptyString) ->
  POST env request = (NOT_CONFIGURED, []).
Proof.
  intros Hb Hp Ht H. unfold POST, prompt_text. rewrite Hb, Hp, Ht.
  fold (coalesce (x_llm_key request) (LLM_API_KEY env)).
  assert (Hk : x_llm_key request = Some EmptyString ->
               unset (coalesce (x_llm_key request) (LLM_API_KEY env)) = true)
    by (intros ->; reflexivity).
  destruct (LLM_API_URL env) as [apiUrl|]; [|reflexivity].
  destruct (coalesce (x_llm_key request) (LLM_API_KEY env)) as [key|];
    [|reflexivity].
  destruct (LLM_MODEL env) as [model|]; [|reflexivity].
  cbn [unset] in H, Hk.
  destruct (is_empty apiUrl); [reflexivity|].
  destruct (is_empty key); [reflexivity|].
  destruct (is_empty model); [reflexivity|].
  destruct H as [H|[H|[H|H]]]; try discriminate H.
  specialize (Hk H). discriminate Hk.
Qed.

End RouteProperties.

Lemma route_rejects_blank_prompt_witness :
  SampleRoute.POST SampleRoute.env
    (SampleRoute.request "  " (Some "sk-sample"%string))
  = (MISSING_PROMPT, []).
Proof.
  apply (route_rejects_blank_prompt SampleRoute.fetch SampleRoute.not_a_function
           SampleRoute.refused_status SampleRoute.env
           (SampleRoute.request "  " (Some "sk-sample"%string))
           (VObj Plain [("prompt"%string, VStr "  ")])).
  - reflexivity.
  - right. right. exists "  "%string. split; reflexivity.
Defined.

Lemma route_needs_configuration_witness :
  SampleRoute.POST SampleRoute.env
    (SampleRoute.request "square root" (Some EmptyString))
  = (NOT_CONFIGURED, []).
Proof.
  apply (route_needs_configuration SampleRoute.fetch SampleRoute.not_a_function
           SampleRoute.refused_status SampleRoute.env
           (SampleRoute.request "square root" (Some EmptyString))
           (VObj Plain [("prompt"%string, VStr "square root")]) "square root"%string).
  - reflexivity.
  - reflexivity.
  - reflexivity.
  - right. right. right. reflexivity.
Defined.

(** ** The page: generating *)

Section GenerateProperties.

Variable String_of : value -> completion string.
Variable page_fetch : PageCall -> awaited PageResponse.
Variable null_member : thrown.

Local Abbreviation handleGenerate :=
  (handleGenerate String_of page_fetch null_member).

(** X20: a generation ends with no result and no log shown, and either
    idle with no error, after a response that was ok and whose JSON could
    be read, or failed with an error text and the code of the editor left
    as it was; it does not end running. *)
Theorem generation_ends_idle_or_failed
    (apiKey prompt : string) (w : Workspace) :
  view_results (view (handleGenerate apiKey prompt w)) = []
  /\ view_logs (view (handleGenerate apiKey prompt w)) = []
  /\ ((view_status (view (handleGenerate apiKey prompt w)) = idle
       /\ view_error (view (handleGenerate apiKey prompt w)) = None
       /\ exists response data,
            page_fetch (generate_call apiKey prompt) = Fulfilled response
            /\ page_ok response = true
            /\ page_json response = Fulfilled data)
      \/ (view_status (view (handleGenerate apiKey prompt w)) = failed
          /\ view_error (view (handleGenerate apiKey prompt w)) <> None
          /\ editor_code (handleGenerate apiKey prompt w) = editor_code w)).
Proof.
  unfold handleGenerate.
  destruct (page_fetch (generate_call apiKey prompt)) as [response|e] eqn:Hf;
    [|split; [reflexivity|]; split; [reflexivity|];
      right; split; [reflexivity|]; split; [discriminate | reflexivity]].
  destruct (page_json response) as [data|e] eqn:Hj;
    [|split; [reflexivity|]; split; [reflexivity|];
      right; split; [reflexivity|]; split; [discriminate | reflexivity]].
  destruct (page_ok response) eqn:Hok; cbn [negb];
    [|destruct (failure_message String_of data);
      (split; [reflexivity|]; split; [reflexivity|];
       right; split; [reflexivity|]; split; [discriminate | reflexivity])].
  destruct data;
    try (split; [reflexivity|]; split; [reflexivity|];
         right; split; [reflexivity|]; split; [discriminate | reflexivity]);
    (split; [reflexivity|]; split; [reflexivity|];
     left; split; [reflexivity|]; split; [reflexivity|];
     exists response; eexists;
     split; [reflexivity|]; split; [exact Hok | exact Hj]).
Qed.

Section Delivery.

Variable fetch : UpstreamCall -> awaited UpstreamResponse.
Variable not_a_function : thrown.
Variable refused_status : nat -> option thrown.
Variable wire : value -> value.

Local Abbreviation POST := (POST fetch not_a_function refused_status).

(** X21: when the answer of the route to some request is what the page's
    [fetch] gets, the page shows the route's error message as it is and
    keeps its code, or, when the route answered with code, ends idle with
    that code in the editor (the empty text when the code does not survive
    the JSON text). *)
Theorem page_shows_route_answer
    (env : Environment) (request : RouteRequest)
    (apiKey prompt : string) (w : Workspace) :
  page_fetch (generate_call apiKey prompt)
  = Fulfilled (delivered wire (fst (POST env request))) ->
  (forall message,
      route_body (fst (POST env request)) = ErrorBody message ->
      handleGenerate apiKey prompt w
      = generation_failed (ThrownError message) w)
  /\ (forall generated,
        route_body (fst (POST env request)) = CodeBody generated ->
        view (handleGenerate apiKey prompt w)
        = {| view_status := idle; view_results := []; view_logs := [];
             view_error := None |}
        /\ editor_code (handleGenerate apiKey prompt w)
           = match wire generated with
             | VUndefined | VNull => VStr EmptyString
             | v => v
             end).
Proof.
  intros Hf. unfold handleGenerate. rewrite Hf.
  unfold delivered. cbn [page_json page_ok].
  destruct (POST_answer fetch not_a_function refused_status env request)
    as [[m [Hbody Hok]]|[c Hr]].
  - rewrite Hbody, Hok. cbn [negb]. split.
    + intros message Hm. injection Hm as <-.
      unfold failure_message, optional_member, member. cbn. reflexivity.
    + intros generated Hg. discriminate Hg.
  - rewrite Hr. cbn [route_body route_ok route_status negb Nat.leb andb].
    split.
    + intros message Hm. discriminate Hm.
    + intros generated Hg. injection Hg as <-.
      cbn. split; reflexivity.
Qed.

End Delivery.

End GenerateProperties.

Lemma page_shows_route_answer_witness :
  view (handleGenerate Sample.String_of SamplePage.page_fetch
          SamplePage.null_member EmptyString "square root"
          SamplePage.workspace)
  = {| view_status := idle; view_results := []; view_logs := [];
       view_error := None |}
  /\ editor_code (handleGenerate Sample.String_of SamplePage.page_fetch
                    SamplePage.null_member EmptyString "square root"
                    SamplePage.workspace)
     = VStr Sample.sqrt_text.
Proof.
  exact (proj2 (page_shows_route_answer Sample.String_of SamplePage.page_fetch
                  SamplePage.null_member SampleRoute.fetch
                  SampleRoute.not_a_function SampleRoute.refused_status
                  (fun v => v) SampleRoute.env
                  (SampleRoute.request "square root" None)
                  EmptyString "square root" SamplePage.workspace eq_refl)
               (VStr Sample.sqrt_text) eq_refl).
Defined.
